(** * cpr::ThreadPool (include/cpr/threadpool.h)

    A shallow embedding of the thread pool's header: the configuration
    mutators, the status predicates and [Submit] are translated from the
    header; the member functions the header only declares ([Start], [Stop],
    [Pause], [Resume], [Wait], [CreateThread], the constructor and the
    worker loop) are taken as parameters of [Submit] and, for the
    pool-wide statements, modelled from the specification. *)

From stdpp Require Import base numbers option list gmap.

Set Default Proof Using "Type".
Open Scope N_scope.

(** ** Data model *)

(** [enum Status { STOP, RUNNING, PAUSE }] *)
Inductive Status := STOP | RUNNING | PAUSE.

Definition Status_eqb (a b : Status) : bool :=
  match a, b with
  | STOP, STOP | RUNNING, RUNNING | PAUSE, PAUSE => true
  | _, _ => false
  end.

(** [struct ThreadData]: the [std::thread] handle is identified with its
    id; time points are ticks of the steady clock. *)
Record ThreadData := mkThreadData {
  thread_id : nat;
  thread_status : Status;
  start_time : N;
  stop_time : N
}.

(** A queue entry, [std::function<void()>].  The only entries ever pushed
    are the lambdas of [Submit], which capture a shared pointer [task] to
    a packaged task and call it: the entry is that pointer. *)
Record Task := mkTask { captured_task : nat }.

(** The data members of [class ThreadPool].  [size_t] and the atomics over
    it are [N]; [std::queue<Task>] is a list pushed at the back and popped
    at the front; the mutexes and condition variables carry no data and
    appear as [Mutex] and [CondVar] names in the events below. *)
Record ThreadPool := mkThreadPool {
  min_thread_num : N;
  max_thread_num : N;
  max_idle_time : Z;
  status : Status;
  cur_thread_num : N;
  idle_thread_num : N;
  threads : list ThreadData;
  tasks : list Task
}.

Inductive Mutex := status_wait_mutex | thread_mutex | task_mutex.
Inductive CondVar := status_wait_cond | task_cond.

Definition CPR_DEFAULT_THREAD_POOL_MIN_THREAD_NUM : N := 1.
Definition CPR_DEFAULT_THREAD_POOL_MAX_IDLE_TIME : Z := 250.

Definition set_status (s : Status) (p : ThreadPool) : ThreadPool :=
  mkThreadPool (min_thread_num p) (max_thread_num p) (max_idle_time p) s
    (cur_thread_num p) (idle_thread_num p) (threads p) (tasks p).

Definition set_tasks (q : list Task) (p : ThreadPool) : ThreadPool :=
  mkThreadPool (min_thread_num p) (max_thread_num p) (max_idle_time p)
    (status p) (cur_thread_num p) (idle_thread_num p) (threads p) q.

Definition set_workers (cur idle : N) (ts : list ThreadData) (p : ThreadPool)
  : ThreadPool :=
  mkThreadPool (min_thread_num p) (max_thread_num p) (max_idle_time p)
    (status p) cur idle ts (tasks p).

(** ** Configuration mutators and accessors (header, lines 36-62) *)

(** A [void] member function returns [tt] next to the new object state. *)
Definition SetMinThreadNum (min_threads : N) (p : ThreadPool) : unit * ThreadPool :=
  (tt, mkThreadPool min_threads (max_thread_num p) (max_idle_time p) (status p)
         (cur_thread_num p) (idle_thread_num p) (threads p) (tasks p)).

Definition SetMaxThreadNum (max_threads : N) (p : ThreadPool) : unit * ThreadPool :=
  (tt, mkThreadPool (min_thread_num p) max_threads (max_idle_time p) (status p)
         (cur_thread_num p) (idle_thread_num p) (threads p) (tasks p)).

Definition SetMaxIdleTime (ms : Z) (p : ThreadPool) : unit * ThreadPool :=
  (tt, mkThreadPool (min_thread_num p) (max_thread_num p) ms (status p)
         (cur_thread_num p) (idle_thread_num p) (threads p) (tasks p)).

Definition GetCurrentThreadNum (p : ThreadPool) : N := cur_thread_num p.
Definition GetIdleThreadNum (p : ThreadPool) : N := idle_thread_num p.

Definition IsStarted (p : ThreadPool) : bool := negb (Status_eqb (status p) STOP).
Definition IsStopped (p : ThreadPool) : bool := Status_eqb (status p) STOP.

(** Modelled from the spec: the constructor's definition is not in the
    header.  It stores its three arguments as the configuration (section 3
    of the specification); every other member takes the default member
    initialiser the header gives it ([status{Status::STOP}],
    [cur_thread_num{0}], [idle_thread_num{0}], [threads{}], [tasks{}]). *)
Definition ThreadPool_new (min_threads max_threads : N) (max_idle_ms : Z)
  : ThreadPool :=
  mkThreadPool min_threads max_threads max_idle_ms STOP 0 0 [] [].

(** The constructor called with no argument; the default of [max_threads]
    is [std::thread::hardware_concurrency()], a value of the host. *)
Definition ThreadPool_default (hardware_concurrency : N) : ThreadPool :=
  ThreadPool_new CPR_DEFAULT_THREAD_POOL_MIN_THREAD_NUM hardware_concurrency
    CPR_DEFAULT_THREAD_POOL_MAX_IDLE_TIME.

(** ** Packaged tasks and futures

    [std::packaged_task<RetType()>] and [std::future<RetType>] of the C++
    standard library: a packaged task stores a callable and owns a shared
    state that its future reads.  Calling the task runs the callable once
    and stores its value, or the exception it throws, in the shared state;
    calling it again throws [future_error]. *)

Section Pool.

Context {Val Exn : Type}.

Inductive future_errc := promise_already_satisfied | no_state.

Inductive exception :=
| user_exception (e : Exn)
| future_error (c : future_errc).

(** What a call does: return a value or throw. *)
Inductive Outcome (A : Type) :=
| Returns (a : A)
| Throws (e : exception).
Global Arguments Returns {A} a.
Global Arguments Throws {A} e.

Inductive SharedState :=
| Pending
| Fulfilled (v : Val)
| Failed (e : exception).

Record PackagedTask := mkPackagedTask {
  stored_task : unit -> Outcome Val;
  shared_state : SharedState
}.

(** [std::future]: a reference to the shared state of the packaged task
    at that address. *)
Record Future := mkFuture { future_state : nat }.

(** The operations of the pool that [Submit] performs or calls, as they
    appear to an observer. *)
Inductive Event :=
| EvStart (start_threads : N)
| EvCreateThread
| EvMakeTask (t : nat)
| EvGetFuture (t : nat)
| EvLock (m : Mutex)
| EvUnlock (m : Mutex)
| EvEmplace (t : Task)
| EvNotifyOne (c : CondVar).

(** The pool object, the heap of packaged tasks that shared pointers point
    into, and the operations that the calls of [Submit] performed so far. *)
Record World := mkWorld {
  pool : ThreadPool;
  heap : gmap nat PackagedTask;
  trace : list Event
}.

Definition M (A : Type) : Type := World -> A * World.

Global Instance M_ret : MRet M := fun A a w => (a, w).
Global Instance M_bind : MBind M := fun A B k m w => let '(a, w') := m w in k a w'.

Definition emit (e : Event) : M unit :=
  fun w => (tt, mkWorld (pool w) (heap w) (trace w ++ [e])).

Definition load {A} (field : ThreadPool -> A) : M A :=
  fun w => (field (pool w), w).

(** The shared state that stores the outcome of the stored callable. *)
Definition outcome_state (o : Outcome Val) : SharedState :=
  match o with
  | Returns v => Fulfilled v
  | Throws e => Failed e
  end.

(** [std::make_shared<std::packaged_task<RetType()>>(f)] *)
Definition make_packaged_task (f : unit -> Outcome Val) : M nat :=
  fun w =>
    let t := fresh (dom (heap w)) in
    (t, mkWorld (pool w) (<[t := mkPackagedTask f Pending]> (heap w))
          (trace w ++ [EvMakeTask t])).

(** [task->get_future()] *)
Definition get_future (t : nat) : M Future :=
  _ ← emit (EvGetFuture t); mret (mkFuture t).

(** [std::lock_guard<std::mutex> locker(m)] and the end of its scope. *)
Definition lock (m : Mutex) : M unit := emit (EvLock m).
Definition unlock (m : Mutex) : M unit := emit (EvUnlock m).

(** [tasks.emplace(entry)] *)
Definition emplace (entry : Task) : M unit :=
  fun w =>
    (tt, mkWorld (set_tasks (tasks (pool w) ++ [entry]) (pool w)) (heap w)
           (trace w ++ [EvEmplace entry])).

Definition notify_one (c : CondVar) : M unit := emit (EvNotifyOne c).

(** [task->operator()()], the call operator of a packaged task. *)
Definition call_packaged_task (t : nat) (h : gmap nat PackagedTask)
  : Outcome unit * gmap nat PackagedTask :=
  match h !! t with
  | Some pt =>
      match shared_state pt with
      | Pending =>
          (Returns tt,
           <[t := mkPackagedTask (stored_task pt) (outcome_state (stored_task pt tt))]> h)
      | _ => (Throws (future_error promise_already_satisfied), h)
      end
  | None => (Throws (future_error no_state), h)
  end.

(** Running a queue entry: the body of the lambda [Submit] pushes. *)
Definition run_task (entry : Task) (h : gmap nat PackagedTask)
  : Outcome unit * gmap nat PackagedTask :=
  call_packaged_task (captured_task entry) h.

(** Reading a future without blocking: [None] while the shared state is
    pending, otherwise what [future.get()] returns or rethrows. *)
Definition future_get (f : Future) (h : gmap nat PackagedTask)
  : option (Outcome Val) :=
  match h !! future_state f with
  | Some pt =>
      match shared_state pt with
      | Pending => None
      | Fulfilled v => Some (Returns v)
      | Failed e => Some (Throws e)
      end
  | None => None
  end.

(** ** Submit (header, lines 76-94)

    [Start] and [CreateThread] are declared in the header and defined
    elsewhere: they are parameters, arbitrary functions of the pool object
    that return the declared [int] and [bool]. *)

Section Submit.

Variable Start : N -> ThreadPool -> Z * ThreadPool.
Variable CreateThread : ThreadPool -> bool * ThreadPool.

Definition call_Start (start_threads : N) : M Z :=
  fun w =>
    let '(r, p) := Start start_threads (pool w) in
    (r, mkWorld p (heap w) (trace w ++ [EvStart start_threads])).

Definition call_CreateThread : M bool :=
  fun w =>
    let '(r, p) := CreateThread (pool w) in
    (r, mkWorld p (heap w) (trace w ++ [EvCreateThread])).

Definition Submit {A : Type} (fn : A -> Outcome Val) (args : A) : M Future :=
  st ← load status;
  _ ← (if Status_eqb st STOP then _ ← call_Start 0; mret tt else mret tt);
  idle ← load idle_thread_num;
  cur ← load cur_thread_num;
  max ← load max_thread_num;
  _ ← (if (idle <=? 0) && (cur <? max) then _ ← call_CreateThread; mret tt
       else mret tt);
  task ← make_packaged_task (fun _ => fn args);
  future ← get_future task;
  _ ← lock task_mutex;
  _ ← emplace (mkTask task);
  _ ← unlock task_mutex;
  _ ← notify_one task_cond;
  mret future.

End Submit.

End Pool.

(** ** The member functions the header only declares

    Each is modelled from section 4 of the specification.  What the host
    decides (whether a thread can be spawned, the reading of the clock) is
    an argument. *)

(** [++] and [--] on a [std::atomic<size_t>]: 64-bit wrap-around. *)
Definition size_t_succ (x : N) : N := (x + 1) mod 2 ^ 64.
Definition size_t_pred (x : N) : N := (x + (2 ^ 64 - 1)) mod 2 ^ 64.

Definition fresh_thread_id (ts : list ThreadData) : nat :=
  S (max_list (thread_id <$> ts)).

(** Modelled from the spec: [CreateThread] is declared, not defined, in the
    header.  "Spawns a new Worker, registers it in the Thread Registry,
    increments current_worker_count and idle_worker_count"; a thread that
    cannot be spawned is "a non-fatal failure return" and the worker set
    stays as it is.  The record of a live worker carries [RUNNING]. *)
Definition CreateThread_spec (spawned : bool) (now : N) (p : ThreadPool)
  : bool * ThreadPool :=
  if spawned then
    (true,
     set_workers (size_t_succ (cur_thread_num p)) (size_t_succ (idle_thread_num p))
       (threads p ++ [mkThreadData (fresh_thread_id (threads p)) RUNNING now 0]) p)
  else (false, p).

(** Modelled from the spec: [DelThread] is declared, not defined, in the
    header.  "Removes a retiring worker's record and decrements both
    counters." *)
Definition DelThread_spec (id : nat) (p : ThreadPool) : ThreadPool :=
  set_workers (size_t_pred (cur_thread_num p)) (size_t_pred (idle_thread_num p))
    (filter (fun td => thread_id td ≠ id) (threads p)) p.

(** Modelled from the spec: the loop of [Start], which is not in the
    header.  [k] calls of [CreateThread] while the host can spawn [budget]
    more threads; it stops at the first failure, "without aborting
    already-created workers". *)
Fixpoint create_threads (k budget : nat) (now : N) (p : ThreadPool)
  : bool * ThreadPool :=
  match k with
  | O => (true, p)
  | S k' =>
      let '(ok, p') := CreateThread_spec (bool_decide (0 < budget)%nat) now p in
      if ok then create_threads k' (pred budget) now p' else (false, p')
  end.

(** Modelled from the spec: [Start] is declared, not defined, in the
    header.  "Transitions status from Stopped/Paused to Running; creates
    max(initial_workers, min_workers) workers if none are live (idempotent
    if already Running).  Returns success/failure; failure if thread
    creation fails, reported without aborting already-created workers."
    Success is 0 and failure -1. *)
Definition Start_spec (budget : nat) (now : N) (start_threads : N)
  (p : ThreadPool) : Z * ThreadPool :=
  match status p with
  | RUNNING => (0%Z, p)
  | _ =>
      let p1 := set_status RUNNING p in
      if cur_thread_num p1 =? 0 then
        let '(ok, p2) :=
          create_threads (N.to_nat (N.max start_threads (min_thread_num p1)))
            budget now p1 in
        ((if ok then 0 else -1)%Z, p2)
      else (0%Z, p1)
  end.

(** Modelled from the spec: [Stop] is declared, not defined, in the header.
    "Transitions status to Stopped; [...] does not clear the Task Queue
    [...] subsequent calls are no-ops."  The workers leave by themselves
    (the worker loop below). *)
Definition Stop_spec (p : ThreadPool) : Z * ThreadPool :=
  match status p with
  | STOP => (0%Z, p)
  | _ => (0%Z, set_status STOP p)
  end.

(** Modelled from the spec: [Pause] is declared, not defined, in the
    header.  "Transitions status to Paused only from Running." *)
Definition Pause_spec (p : ThreadPool) : Z * ThreadPool :=
  match status p with
  | RUNNING => (0%Z, set_status PAUSE p)
  | _ => (0%Z, p)
  end.

(** Modelled from the spec: [Resume] is declared, not defined, in the
    header.  "Transitions Paused -> Running." *)
Definition Resume_spec (p : ThreadPool) : Z * ThreadPool :=
  match status p with
  | PAUSE => (0%Z, set_status RUNNING p)
  | _ => (0%Z, p)
  end.

(** A worker is registered when the registry holds a record with its id. *)
Definition registered (worker : nat) (p : ThreadPool) : Prop :=
  worker ∈ thread_id <$> threads p.

(** ** The pool and its workers as a transition system *)

Section System.

Context {Val Exn : Type}.

(** The world of [Submit] and, for every worker that is Busy, the entry it
    has dequeued and is executing; a registered worker that holds no entry
    is Idle. *)
Record System := mkSystem {
  world : @World Val Exn;
  busy : gmap nat Task
}.

Definition with_pool (p : ThreadPool) (s : System) : System :=
  mkSystem (mkWorld p (heap (world s)) (trace (world s))) (busy s).

(** Modelled from the spec: [Wait] is declared ([int Wait() const]), not
    defined, in the header.  It "blocks the calling thread until the Task
    Queue is empty and no worker is Busy (i.e., all submitted work has
    completed or the pool has been stopped)": this is the condition under
    which it returns. *)
Definition Wait_returns (s : System) : bool :=
  Status_eqb (status (pool (world s))) STOP
  || (bool_decide (tasks (pool (world s)) = []) && bool_decide (busy s = ∅)).

(** What an observer sees of a step: the call a client makes, with the
    future [Submit] returns, or the move of a worker. *)
Inductive Label :=
| LSetMinThreadNum (min_threads : N)
| LSetMaxThreadNum (max_threads : N)
| LSetMaxIdleTime (ms : Z)
| LStart (start_threads : N)
| LStop
| LPause
| LResume
| LWait
| LSubmit (fn : unit -> @Outcome Exn Val) (f : Future)
| LDequeue (worker : nat) (entry : Task)
| LExecute (worker : nat) (entry : Task)
| LRetire (worker : nat)
| LExit (worker : nat).

(** Modelled from the spec: the two moves of a worker that change the
    system (section 4.2).  Claiming the front entry, whose rest is [rest]:
    "transition to Busy, decrement idle_worker_count, dequeue".  Finishing
    an entry, whose run left the heap [h']: "write the result (success or
    failure) to the Result handle, transition back to Idle, increment
    idle_worker_count". *)
Definition worker_dequeue (worker : nat) (entry : Task) (rest : list Task)
  (s : System) : System :=
  mkSystem
    (mkWorld
       (set_workers (cur_thread_num (pool (world s)))
          (size_t_pred (idle_thread_num (pool (world s))))
          (threads (pool (world s)))
          (set_tasks rest (pool (world s))))
       (heap (world s)) (trace (world s)))
    (<[worker := entry]> (busy s)).

Definition worker_execute (worker : nat) (h' : gmap nat PackagedTask)
  (s : System) : System :=
  mkSystem
    (mkWorld
       (set_workers (cur_thread_num (pool (world s)))
          (size_t_succ (idle_thread_num (pool (world s))))
          (threads (pool (world s))) (pool (world s)))
       h' (trace (world s)))
    (delete worker (busy s)).

(** Modelled from the spec: the worker loop (section 4.2) is not in the
    header.  An Idle worker of a Running pool dequeues the front entry,
    becomes Busy and decrements idle_worker_count ([step_Dequeue]); it
    executes the entry, the result goes to the result handle, and it is
    Idle again ([step_Execute]); on a timeout with no task and more than
    min_workers workers it deregisters ([step_Retire]); when the pool is
    stopped it deregisters ([step_Exit]).  The calls of a client are the
    functions above; [Submit] is the header's, calling the modelled
    [Start] and [CreateThread]. *)
Inductive step : System -> Label -> System -> Prop :=
| step_SetMinThreadNum s n :
    step s (LSetMinThreadNum n) (with_pool (SetMinThreadNum n (pool (world s))).2 s)
| step_SetMaxThreadNum s n :
    step s (LSetMaxThreadNum n) (with_pool (SetMaxThreadNum n (pool (world s))).2 s)
| step_SetMaxIdleTime s ms :
    step s (LSetMaxIdleTime ms) (with_pool (SetMaxIdleTime ms (pool (world s))).2 s)
| step_Start s budget now n :
    step s (LStart n) (with_pool (Start_spec budget now n (pool (world s))).2 s)
| step_Stop s :
    step s LStop (with_pool (Stop_spec (pool (world s))).2 s)
| step_Pause s :
    step s LPause (with_pool (Pause_spec (pool (world s))).2 s)
| step_Resume s :
    step s LResume (with_pool (Resume_spec (pool (world s))).2 s)
| step_Wait s :
    Wait_returns s = true ->
    step s LWait s
| step_Submit s budget spawned now fn f w' :
    Submit (Start_spec budget now) (CreateThread_spec spawned now) fn tt (world s)
      = (f, w') ->
    step s (LSubmit fn f) (mkSystem w' (busy s))
| step_Dequeue s worker entry rest :
    registered worker (pool (world s)) ->
    busy s !! worker = None ->
    status (pool (world s)) = RUNNING ->
    tasks (pool (world s)) = entry :: rest ->
    step s (LDequeue worker entry) (worker_dequeue worker entry rest s)
| step_Execute s worker entry h' :
    busy s !! worker = Some entry ->
    run_task entry (heap (world s)) = (Returns tt, h') ->
    step s (LExecute worker entry) (worker_execute worker h' s)
| step_Retire s worker :
    registered worker (pool (world s)) ->
    busy s !! worker = None ->
    status (pool (world s)) = RUNNING ->
    tasks (pool (world s)) = [] ->
    min_thread_num (pool (world s)) < cur_thread_num (pool (world s)) ->
    step s (LRetire worker) (with_pool (DelThread_spec worker (pool (world s))) s)
| step_Exit s worker :
    registered worker (pool (world s)) ->
    busy s !! worker = None ->
    status (pool (world s)) = STOP ->
    step s (LExit worker) (with_pool (DelThread_spec worker (pool (world s))) s).

(** Runs: the labels of the steps taken, in order. *)
Inductive run : System -> list Label -> System -> Prop :=
| run_nil s : run s [] s
| run_snoc s ls s1 l s2 : run s ls s1 -> step s1 l s2 -> run s (ls ++ [l]) s2.

(** A freshly constructed pool: no packaged task, no Busy worker. *)
Definition fresh_system (min_threads max_threads : N) (max_idle_ms : Z) : System :=
  mkSystem (mkWorld (ThreadPool_new min_threads max_threads max_idle_ms) ∅ []) ∅.

(** The futures the calls of [Submit] returned, in the order of the calls. *)
Fixpoint submitted (ls : list Label) : list Future :=
  match ls with
  | [] => []
  | LSubmit _ f :: ls' => f :: submitted ls'
  | _ :: ls' => submitted ls'
  end.

(** The entries the workers dequeued, in the order they did. *)
Fixpoint dequeued (ls : list Label) : list Task :=
  match ls with
  | [] => []
  | LDequeue _ entry :: ls' => entry :: dequeued ls'
  | _ :: ls' => dequeued ls'
  end.

(** The entry [Submit] pushes for the future it returns. *)
Definition entry_of (f : Future) : Task := mkTask (future_state f).

Definition is_Start_or_Submit (l : Label) : bool :=
  match l with
  | LStart _ | LSubmit _ _ => true
  | _ => false
  end.

(** A future is resolved in a heap when reading it does not block. *)
Definition resolved (f : Future) (h : gmap nat (@PackagedTask Val Exn)) : Prop :=
  is_Some (future_get f h).

(** An entry is pending in a heap when its packaged task is allocated and
    has not been called. *)
Definition pending (entry : Task) (h : gmap nat (@PackagedTask Val Exn)) : Prop :=
  exists pt, h !! captured_task entry = Some pt /\ shared_state pt = Pending.

(** The invariant: the entries of the futures returned so far are, in the
    order of the calls, the entries dequeued so far followed by the queue;
    the futures are distinct and allocated; each is resolved, or its entry
    is queued, or a Busy worker holds its entry; the entries in the queue
    and in the hands of the workers are pending, and no two workers hold
    the same entry. *)
Record Inv (ls : list Label) (s : System) : Prop := mkInv {
  inv_fifo : entry_of <$> submitted ls = dequeued ls ++ tasks (pool (world s));
  inv_nodup : NoDup (entry_of <$> submitted ls);
  inv_alloc : forall f, f ∈ submitted ls -> is_Some (heap (world s) !! future_state f);
  inv_where : forall f, f ∈ submitted ls ->
    resolved f (heap (world s))
    \/ entry_of f ∈ tasks (pool (world s))
    \/ exists worker, busy s !! worker = Some (entry_of f);
  inv_queue_pending : forall entry,
    entry ∈ tasks (pool (world s)) -> pending entry (heap (world s));
  inv_busy_pending : forall worker entry,
    busy s !! worker = Some entry ->
    entry ∈ dequeued ls /\ pending entry (heap (world s));
  inv_busy_inj : forall w1 w2 entry,
    busy s !! w1 = Some entry -> busy s !! w2 = Some entry -> w1 = w2
}.

(** While [Stop] has not been called, a pool whose status is STOP has
    never been started: its queue is empty and no worker is Busy. *)
Definition quiet_if_stopped (ls : list Label) (s : System) : Prop :=
  LStop ∉ ls ->
  status (pool (world s)) = STOP ->
  tasks (pool (world s)) = [] /\ busy s = ∅.

(** A pool without worker: stopped, empty registry, both counters zero,
    no Busy worker. *)
Definition no_worker (s : System) : Prop :=
  status (pool (world s)) = STOP
  /\ threads (pool (world s)) = []
  /\ cur_thread_num (pool (world s)) = 0
  /\ idle_thread_num (pool (world s)) = 0
  /\ busy s = ∅.

End System.

(** ** What [Submit] observes

    The pool after the first statement of [Submit] (the automatic start),
    the condition of its second statement, read on that pool, and the pool
    after the second statement. *)

Definition auto_started (Start : N -> ThreadPool -> Z * ThreadPool)
  (p : ThreadPool) : ThreadPool :=
  if Status_eqb (status p) STOP then (Start 0 p).2 else p.

Definition scale_up_wanted (p : ThreadPool) : bool :=
  (idle_thread_num p <=? 0) && (cur_thread_num p <? max_thread_num p).

Definition scaled_up (CreateThread : ThreadPool -> bool * ThreadPool)
  (p : ThreadPool) : ThreadPool :=
  if scale_up_wanted p then (CreateThread p).2 else p.

(** The events a computation adds to the trace. *)
Definition events_of {Val Exn A : Type} (m : @M Val Exn A) (w : World)
  : list Event :=
  drop (length (trace w)) (trace (m w).2).

Definition is_EvCreateThread (e : Event) : bool :=
  match e with EvCreateThread => true | _ => false end.

Definition is_EvStart (e : Event) : bool :=
  match e with EvStart _ => true | _ => false end.

(** The events of the last four statements of [Submit] for the packaged
    task at address [t]. *)
Definition enqueue_events (t : nat) : list Event :=
  [EvMakeTask t; EvGetFuture t; EvLock task_mutex; EvEmplace (mkTask t);
   EvUnlock task_mutex; EvNotifyOne task_cond].

(** A configuration is consistent when the ceiling is not below the floor. *)
Definition config_ok (p : ThreadPool) : Prop :=
  min_thread_num p <= max_thread_num p.

(** The members that no mutator writes. *)
Definition same_workers_and_queue (p p' : ThreadPool) : Prop :=
  status p' = status p
  /\ cur_thread_num p' = cur_thread_num p
  /\ idle_thread_num p' = idle_thread_num p
  /\ threads p' = threads p
  /\ tasks p' = tasks p.

(** ** Calls in sequence and the lock discipline *)

(** The world with another pool object: what a call of a mutator does to
    the world of [Submit]. *)
Definition with_pool_of {Val Exn : Type} (p : ThreadPool) (w : @World Val Exn)
  : @World Val Exn :=
  mkWorld p (heap w) (trace w).

(** Calls of [Submit] made one after the other by one caller, each with a
    callable whose arguments are bound; the futures come back in the order
    of the calls. *)
Fixpoint Submit_all {Val Exn : Type}
  (Start : N -> ThreadPool -> Z * ThreadPool)
  (CreateThread : ThreadPool -> bool * ThreadPool)
  (calls : list (unit -> @Outcome Exn Val)) : @M Val Exn (list Future) :=
  match calls with
  | [] => mret []
  | fn :: rest =>
      f ← Submit Start CreateThread fn tt;
      fs ← Submit_all Start CreateThread rest;
      mret (f :: fs)
  end.

(** Running entries one after the other, each by the call of its lambda;
    the outcomes of the calls come back in order. *)
Fixpoint run_all {Val Exn : Type} (entries : list Task)
  (h : gmap nat (@PackagedTask Val Exn))
  : list (@Outcome Exn unit) * gmap nat (@PackagedTask Val Exn) :=
  match entries with
  | [] => ([], h)
  | entry :: rest =>
      let '(o, h1) := run_task entry h in
      let '(os, h2) := run_all rest h1 in
      (o :: os, h2)
  end.


Definition Mutex_eqb (a b : Mutex) : bool :=
  match a, b with
  | status_wait_mutex, status_wait_mutex
  | thread_mutex, thread_mutex
  | task_mutex, task_mutex => true
  | _, _ => false
  end.

Definition holds (m : Mutex) (held : list Mutex) : bool :=
  existsb (Mutex_eqb m) held.

(** Reading a trace against the discipline of the header: a mutex is not
    locked twice, scopes of [lock_guard] close in the reverse order of
    their opening, the queue is pushed only under [task_mutex], and
    [Start], [CreateThread] and [notify_one] are called under no lock.
    The result is the mutexes held at the end, innermost first, or [None]
    when the trace breaks the discipline. *)
Fixpoint lock_discipline (held : list Mutex) (tr : list Event)
  : option (list Mutex) :=
  match tr with
  | [] => Some held
  | e :: tr' =>
      match e with
      | EvLock m =>
          if holds m held then None else lock_discipline (m :: held) tr'
      | EvUnlock m =>
          match held with
          | m' :: held' =>
              if Mutex_eqb m m' then lock_discipline held' tr' else None
          | [] => None
          end
      | EvEmplace _ =>
          if holds task_mutex held then lock_discipline held tr' else None
      | EvStart _ | EvCreateThread | EvNotifyOne _ =>
          match held with
          | [] => lock_discipline held tr'
          | _ :: _ => None
          end
      | EvMakeTask _ | EvGetFuture _ => lock_discipline held tr'
      end
  end.

(** ** A sample run

    A pool of one to four workers, values in [Z] and exceptions in [nat].
    A first [Submit] starts the pool, which spawns one worker (thread 1);
    a second one follows; the worker dequeues and executes both entries.
    The first callable returns 7, the second throws. *)

Definition sample_fn1 : unit -> @Outcome nat Z := fun _ => Returns 7%Z.
Definition sample_fn2 : unit -> @Outcome nat Z :=
  fun _ => Throws (user_exception 3%nat).

Definition sample0 : @System Z nat := fresh_system 1 4 250.

Definition sample1 : @System Z nat :=
  Eval vm_compute in
    mkSystem (Submit (Start_spec 2 0) (CreateThread_spec true 0) sample_fn1 tt
                (world sample0)).2 (busy sample0).

Definition sample2 : @System Z nat :=
  Eval vm_compute in
    mkSystem (Submit (Start_spec 0 1) (CreateThread_spec false 1) sample_fn2 tt
                (world sample1)).2 (busy sample1).

Definition sample3 : @System Z nat :=
  Eval vm_compute in worker_dequeue 1 (mkTask 0) [mkTask 1] sample2.

Definition sample4 : @System Z nat :=
  Eval vm_compute in
    worker_execute 1 (run_task (mkTask 0) (heap (world sample3))).2 sample3.

Definition sample5 : @System Z nat :=
  Eval vm_compute in worker_dequeue 1 (mkTask 1) [] sample4.

Definition sample6 : @System Z nat :=
  Eval vm_compute in
    worker_execute 1 (run_task (mkTask 1) (heap (world sample5))).2 sample5.

Definition sample_labels : list (@Label Z nat) :=
  [LSubmit sample_fn1 (mkFuture 0); LSubmit sample_fn2 (mkFuture 1);
   LDequeue 1 (mkTask 0); LExecute 1 (mkTask 0);
   LDequeue 1 (mkTask 1); LExecute 1 (mkTask 1)].

(** A pool that is configured and never started. *)
Definition idle_labels : list (@Label Z nat) :=
  [LSetMaxThreadNum 0; LPause; LStop; LWait].

Definition idle_sample : @System Z nat :=
  Eval vm_compute in with_pool (SetMaxThreadNum 0 (pool (world sample0))).2 sample0.

(** * Properties *)

Section SubmitFacts.

Context {Val Exn : Type}.
Variable Start : N -> ThreadPool -> Z * ThreadPool.
Variable CreateThread : ThreadPool -> bool * ThreadPool.

(** [Submit] in closed form. *)
Lemma Submit_unfold {A} (fn : A -> @Outcome Exn Val) (args : A) (w : World) :
  let t := fresh (dom (heap w)) in
  let p1 := auto_started Start (pool w) in
  let p2 := scaled_up CreateThread p1 in
  Submit Start CreateThread fn args w =
    (mkFuture t,
     mkWorld (set_tasks (tasks p2 ++ [mkTask t]) p2)
       (<[t := mkPackagedTask (fun _ => fn args) Pending]> (heap w))
       (trace w
          ++ (if Status_eqb (status (pool w)) STOP then [EvStart 0] else [])
          ++ (if scale_up_wanted p1 then [EvCreateThread] else [])
          ++ enqueue_events t)).
Proof.
  unfold Submit, auto_started, scaled_up, scale_up_wanted, enqueue_events.
  unfold mbind, M_bind, mret, M_ret, load, call_Start, call_CreateThread,
    make_packaged_task, get_future, lock, unlock, emplace, notify_one, emit,
    mbind, M_bind, mret, M_ret.
  cbn.
  destruct (Status_eqb (status (pool w)) STOP); cbn.
  - destruct (Start 0 (pool w)) as [r p1]; cbn.
    destruct ((idle_thread_num p1 <=? 0) && (cur_thread_num p1 <? max_thread_num p1)); cbn.
    + destruct (CreateThread p1) as [b p2]; cbn.
      rewrite <- !app_assoc. reflexivity.
    + rewrite <- !app_assoc. reflexivity.
  - destruct ((idle_thread_num (pool w) <=? 0)
              && (cur_thread_num (pool w) <? max_thread_num (pool w))); cbn.
    + destruct (CreateThread (pool w)) as [b p2]; cbn.
      rewrite <- !app_assoc. reflexivity.
    + rewrite <- !app_assoc. reflexivity.
Qed.

Lemma fresh_address_unused (h : gmap nat (@PackagedTask Val Exn)) :
  h !! fresh (dom h) = None.
Proof. apply not_elem_of_dom, is_fresh. Qed.

Lemma Submit_events {A} (fn : A -> @Outcome Exn Val) (args : A) (w : World) :
  events_of (Submit Start CreateThread fn args) w =
    (if Status_eqb (status (pool w)) STOP then [EvStart 0] else [])
    ++ (if scale_up_wanted (auto_started Start (pool w)) then [EvCreateThread] else [])
    ++ enqueue_events (fresh (dom (heap w))).
Proof.
  unfold events_of. rewrite Submit_unfold. cbn [snd trace].
  apply drop_app_length.
Qed.

Lemma Submit_trace {A} (fn : A -> @Outcome Exn Val) (args : A) (w : World) :
  trace (Submit Start CreateThread fn args w).2 =
    trace w ++ events_of (Submit Start CreateThread fn args) w.
Proof. rewrite Submit_events, Submit_unfold. reflexivity. Qed.

(** C1: a call of [Submit] on a pool whose status is STOP calls [Start()]
    first, before it makes the packaged task and before it pushes the
    entry, and calls it once: the pool it goes on with, decides the
    scale-up on and pushes the entry into is the pool [Start(0)] left.  On
    a pool whose status is RUNNING or PAUSE it does not call [Start]: it
    goes on with the pool as it is. *)
Theorem Submit_auto_start {A} (fn : A -> @Outcome Exn Val) (args : A) (w : World) :
  let r := Submit Start CreateThread fn args w in
  (exists rest,
     trace r.2 = trace w ++ events_of (Submit Start CreateThread fn args) w
     /\ events_of (Submit Start CreateThread fn args) w
        = (if Status_eqb (status (pool w)) STOP then [EvStart 0] else []) ++ rest
     /\ (forall e, e ∈ rest -> is_EvStart e = false)
     /\ EvMakeTask (future_state r.1) ∈ rest
     /\ EvEmplace (entry_of r.1) ∈ rest)
  /\ (status (pool w) = STOP ->
      let p1 := (Start 0 (pool w)).2 in
      let p2 := if scale_up_wanted p1 then (CreateThread p1).2 else p1 in
      pool r.2 = set_tasks (tasks p2 ++ [entry_of r.1]) p2)
  /\ (status (pool w) <> STOP ->
      let p2 := if scale_up_wanted (pool w) then (CreateThread (pool w)).2
                else pool w in
      pool r.2 = set_tasks (tasks p2 ++ [entry_of r.1]) p2).
Proof.
  intros r. subst r. split; [|split].
  - exists ((if scale_up_wanted (auto_started Start (pool w)) then [EvCreateThread] else [])
            ++ enqueue_events (fresh (dom (heap w)))).
    split; [apply Submit_trace|].
    split; [apply Submit_events|].
    rewrite Submit_unfold. unfold entry_of, enqueue_events. cbn [fst future_state].
    split; [|split].
    + intros e He. apply elem_of_app in He as [He|He].
      * destruct (scale_up_wanted _).
        -- apply list_elem_of_singleton in He as ->. reflexivity.
        -- apply elem_of_nil in He as [].
      * repeat (apply elem_of_cons in He as [->|He]; [reflexivity|]).
        apply elem_of_nil in He as [].
    + apply elem_of_app. right. apply elem_of_cons. left. reflexivity.
    + apply elem_of_app. right. do 3 (apply elem_of_cons; right).
      apply elem_of_cons. left. reflexivity.
  - intros Hst. rewrite Submit_unfold. unfold auto_started, scaled_up, entry_of.
    rewrite Hst. reflexivity.
  - intros Hst. rewrite Submit_unfold. unfold auto_started, scaled_up, entry_of.
    destruct (status (pool w)); [done|reflexivity..].
Qed.

(** C2: a call of [Submit] calls [CreateThread] once if, on the pool it
    observes after the automatic start, the idle worker count is zero and
    the current worker count is below [max_thread_num], and does not call
    it otherwise; when it calls it, one more worker does not exceed
    [max_thread_num].  The call is made on the observed pool and the entry
    is pushed into the pool the call left; without the call the entry is
    pushed into the observed pool, with its workers as they were. *)
Theorem Submit_scale_up {A} (fn : A -> @Outcome Exn Val) (args : A) (w : World) :
  let p1 := auto_started Start (pool w) in
  let r := Submit Start CreateThread fn args w in
  let attempts :=
    length (List.filter is_EvCreateThread
              (events_of (Submit Start CreateThread fn args) w)) in
  (attempts = 1%nat <->
     idle_thread_num p1 = 0 /\ cur_thread_num p1 < max_thread_num p1)
  /\ (attempts <> 1%nat -> attempts = 0%nat)
  /\ (attempts = 1%nat -> cur_thread_num p1 + 1 <= max_thread_num p1)
  /\ p1 = (if Status_eqb (status (pool w)) STOP then (Start 0 (pool w)).2
           else pool w)
  /\ (idle_thread_num p1 = 0 /\ cur_thread_num p1 < max_thread_num p1 ->
      pool r.2
      = set_tasks (tasks (CreateThread p1).2 ++ [entry_of r.1]) (CreateThread p1).2)
  /\ (~ (idle_thread_num p1 = 0 /\ cur_thread_num p1 < max_thread_num p1) ->
      pool r.2 = set_tasks (tasks p1 ++ [entry_of r.1]) p1
      /\ threads (pool r.2) = threads p1
      /\ cur_thread_num (pool r.2) = cur_thread_num p1
      /\ idle_thread_num (pool r.2) = idle_thread_num p1).
Proof.
  intros p1 r attempts. subst attempts r. rewrite Submit_events, Submit_unfold.
  fold p1. unfold scaled_up, scale_up_wanted, enqueue_events, entry_of.
  cbn [fst snd pool future_state].
  split; [|split; [|split; [|split; [reflexivity|]]]].
  - destruct (Status_eqb (status (pool w)) STOP);
      destruct (idle_thread_num p1 <=? 0) eqn:Hidle;
      destruct (cur_thread_num p1 <? max_thread_num p1) eqn:Hcur; cbn;
      try apply N.leb_le in Hidle; try apply N.leb_gt in Hidle;
      try apply N.ltb_lt in Hcur; try apply N.ltb_ge in Hcur;
      (split; [intros ?|intros [? ?]]); lia.
  - destruct (Status_eqb (status (pool w)) STOP);
      destruct (idle_thread_num p1 <=? 0);
      destruct (cur_thread_num p1 <? max_thread_num p1); cbn; intros ?; lia.
  - destruct (Status_eqb (status (pool w)) STOP);
      destruct (idle_thread_num p1 <=? 0) eqn:Hidle;
      destruct (cur_thread_num p1 <? max_thread_num p1) eqn:Hcur; cbn;
      try apply N.ltb_lt in Hcur; intros ?; lia.
  - split.
    + intros [Hidle Hcur].
      assert (E1 : (idle_thread_num p1 <=? 0) = true) by (apply N.leb_le; lia).
      assert (E2 : (cur_thread_num p1 <? max_thread_num p1) = true)
        by (apply N.ltb_lt; lia).
      rewrite E1, E2. reflexivity.
    + intros Hnot.
      assert (E : (idle_thread_num p1 <=? 0)
                  && (cur_thread_num p1 <? max_thread_num p1) = false).
      { apply andb_false_iff.
        destruct (idle_thread_num p1 <=? 0) eqn:Hidle; [|by left].
        destruct (cur_thread_num p1 <? max_thread_num p1) eqn:Hcur; [|by right].
        apply N.leb_le in Hidle. apply N.ltb_lt in Hcur.
        exfalso. apply Hnot. split; lia. }
      rewrite E. repeat split.
Qed.

(** C3: the entry that [Submit] pushes for the future it returns, once
    run, returns normally to the worker that runs it, whether the callable
    returns or throws; the future then reads what the callable did, its
    value if it returned and its exception if it threw; no other packaged
    task is touched. *)
Theorem Submit_result {A} (fn : A -> @Outcome Exn Val) (args : A) (w : World) :
  let r := Submit Start CreateThread fn args w in
  last (tasks (pool r.2)) = Some (entry_of r.1)
  /\ heap r.2 !! future_state r.1 = Some (mkPackagedTask (fun _ => fn args) Pending)
  /\ forall h : gmap nat PackagedTask,
       h !! future_state r.1 = heap r.2 !! future_state r.1 ->
       exists h',
         run_task (entry_of r.1) h = (Returns tt, h')
         /\ future_get r.1 h' = Some (fn args)
         /\ (forall v, fn args = Returns v -> future_get r.1 h' = Some (Returns v))
         /\ (forall e, fn args = Throws e -> future_get r.1 h' = Some (Throws e))
         /\ forall t, t ≠ future_state r.1 -> h' !! t = h !! t.
Proof.
  intros r. subst r. rewrite Submit_unfold. unfold entry_of.
  cbn [fst snd pool heap tasks set_tasks future_state].
  split; [apply last_snoc|].
  split; [apply lookup_insert_eq|].
  intros h Hh. rewrite lookup_insert_eq in Hh.
  unfold run_task, call_packaged_task. cbn [captured_task].
  rewrite Hh. cbn [shared_state stored_task].
  eexists. split; [reflexivity|].
  assert (Hget : future_get (mkFuture (fresh (dom (heap w))))
            (<[fresh (dom (heap w)) :=
                 mkPackagedTask (fun _ => fn args) (outcome_state (fn args))]> h)
          = Some (fn args)).
  { unfold future_get. cbn [future_state]. rewrite lookup_insert_eq.
    cbn [shared_state]. destruct (fn args); reflexivity. }
  split; [exact Hget|].
  split; [intros v Hv; rewrite Hget, Hv; reflexivity|].
  split; [intros e He; rewrite Hget, He; reflexivity|].
  intros t Ht. apply lookup_insert_ne. congruence.
Qed.


(** C7: when the scale-up step of [Submit] calls [CreateThread] and the
    call fails (returns false), [Submit] goes on: the packaged task is
    made, its entry is pushed at the back of the queue, the future is
    returned, and the registry, the two counters and the status are as the
    failed call left them. *)
Theorem Submit_survives_CreateThread_failure {A} (fn : A -> @Outcome Exn Val)
  (args : A) (w : World) (p2 : ThreadPool) :
  scale_up_wanted (auto_started Start (pool w)) = true ->
  CreateThread (auto_started Start (pool w)) = (false, p2) ->
  let r := Submit Start CreateThread fn args w in
  EvCreateThread ∈ events_of (Submit Start CreateThread fn args) w
  /\ tasks (pool r.2) = tasks p2 ++ [entry_of r.1]
  /\ heap r.2 !! future_state r.1 = Some (mkPackagedTask (fun _ => fn args) Pending)
  /\ threads (pool r.2) = threads p2
  /\ cur_thread_num (pool r.2) = cur_thread_num p2
  /\ idle_thread_num (pool r.2) = idle_thread_num p2
  /\ status (pool r.2) = status p2.
Proof.
  intros Hwant Hfail r. subst r.
  rewrite Submit_events, Submit_unfold, Hwant.
  unfold scaled_up, entry_of. rewrite Hwant, Hfail.
  cbn [fst snd pool heap tasks set_tasks future_state threads
       cur_thread_num idle_thread_num status].
  split; [apply elem_of_app; right; apply elem_of_app; left;
          apply list_elem_of_singleton; reflexivity|].
  split; [reflexivity|].
  split; [apply lookup_insert_eq|].
  repeat split.
Qed.

End SubmitFacts.

(** [Submit] on three pools.  A stopped pool is started, and the worker
    that [Start] creates is idle, so no thread is added; a running pool
    whose only worker is busy gets a second one; a running pool at its
    maximum gets none. *)

Example Submit_on_stopped_pool :
  trace (Submit (Start_spec 2 0) (CreateThread_spec true 0)
           (fun x : Z => @Returns nat Z (x + 1)%Z) 41%Z
           (mkWorld (ThreadPool_default 4) ∅ [])).2
  = [EvStart 0; EvMakeTask 0; EvGetFuture 0; EvLock task_mutex;
     EvEmplace (mkTask 0); EvUnlock task_mutex; EvNotifyOne task_cond].
Proof. vm_compute. reflexivity. Qed.

Example Submit_on_busy_pool :
  let r := Submit (Start_spec 2 0) (CreateThread_spec true 5)
             (fun x : Z => @Returns nat Z (x + 1)%Z) 41%Z
             (mkWorld (mkThreadPool 1 4 250 RUNNING 1 0
                         [mkThreadData 1 RUNNING 0 0] []) ∅ []) in
  trace r.2
  = [EvCreateThread; EvMakeTask 0; EvGetFuture 0; EvLock task_mutex;
     EvEmplace (mkTask 0); EvUnlock task_mutex; EvNotifyOne task_cond]
  /\ cur_thread_num (pool r.2) = 2
  /\ tasks (pool r.2) = [mkTask 0].
Proof. vm_compute. repeat split. Qed.

Example Submit_on_full_pool :
  let r := Submit (Start_spec 2 0) (CreateThread_spec true 5)
             (fun x : Z => @Returns nat Z (x + 1)%Z) 41%Z
             (mkWorld (mkThreadPool 1 1 250 RUNNING 1 0
                         [mkThreadData 1 RUNNING 0 0] []) ∅ []) in
  trace r.2
  = [EvMakeTask 0; EvGetFuture 0; EvLock task_mutex;
     EvEmplace (mkTask 0); EvUnlock task_mutex; EvNotifyOne task_cond]
  /\ cur_thread_num (pool r.2) = 1.
Proof. vm_compute. repeat split. Qed.

(** A callable that throws: the entry returns normally and the future
    holds the exception. *)
Example Submit_throwing_callable :
  let r := Submit (Start_spec 2 0) (CreateThread_spec true 0)
             (fun _ : Z => @Throws nat Z (user_exception 9%nat)) 0%Z
             (mkWorld (ThreadPool_default 4) ∅ []) in
  future_get r.1 (heap r.2) = None
  /\ (run_task (entry_of r.1) (heap r.2)).1 = Returns tt
  /\ future_get r.1 (run_task (entry_of r.1) (heap r.2)).2
     = Some (Throws (user_exception 9%nat)).
Proof. vm_compute. repeat split. Qed.

(** ** The modelled member functions leave the queue alone *)

Lemma create_threads_frame k budget now p :
  tasks (create_threads k budget now p).2 = tasks p
  /\ status (create_threads k budget now p).2 = status p.
Proof.
  revert budget p. induction k as [|k IH]; intros budget p; [done|].
  cbn [create_threads]. unfold CreateThread_spec.
  destruct (bool_decide (0 < budget)%nat); [|done].
  destruct (IH (pred budget)
              (set_workers (size_t_succ (cur_thread_num p))
                 (size_t_succ (idle_thread_num p))
                 (threads p ++ [mkThreadData (fresh_thread_id (threads p)) RUNNING now 0])
                 p)) as [Ht Hs].
  rewrite Ht, Hs. done.
Qed.

Lemma Start_spec_pool budget now n p :
  (Start_spec budget now n p).2 =
    match status p with
    | RUNNING => p
    | _ =>
        if cur_thread_num (set_status RUNNING p) =? 0 then
          (create_threads
             (N.to_nat (N.max n (min_thread_num (set_status RUNNING p))))
             budget now (set_status RUNNING p)).2
        else set_status RUNNING p
    end.
Proof.
  unfold Start_spec.
  destruct (status p); [|done|];
    (destruct (cur_thread_num (set_status RUNNING p) =? 0); [|done];
     destruct (create_threads _ budget now (set_status RUNNING p)); done).
Qed.

Lemma Start_spec_tasks budget now n p :
  tasks (Start_spec budget now n p).2 = tasks p.
Proof.
  rewrite Start_spec_pool.
  destruct (status p); [|done|];
    (destruct (cur_thread_num (set_status RUNNING p) =? 0); [|done];
     rewrite (proj1 (create_threads_frame _ _ _ _)); done).
Qed.

Lemma Start_spec_status budget now n p :
  status (Start_spec budget now n p).2 = RUNNING.
Proof.
  rewrite Start_spec_pool.
  destruct (status p) eqn:Hst; [|done|];
    (destruct (cur_thread_num (set_status RUNNING p) =? 0); [|done];
     rewrite (proj2 (create_threads_frame _ _ _ _)); done).
Qed.

Lemma CreateThread_spec_frame spawned now p :
  tasks (CreateThread_spec spawned now p).2 = tasks p
  /\ status (CreateThread_spec spawned now p).2 = status p.
Proof. unfold CreateThread_spec. destruct spawned; done. Qed.

(** The modelled [CreateThread], when the host spawns no thread, returns
    false and leaves the pool as it was. *)
Lemma CreateThread_spec_failure now p : CreateThread_spec false now p = (false, p).
Proof. reflexivity. Qed.

Lemma Stop_spec_tasks p : tasks (Stop_spec p).2 = tasks p.
Proof. unfold Stop_spec. destruct (status p); done. Qed.

Lemma Pause_spec_tasks p : tasks (Pause_spec p).2 = tasks p.
Proof. unfold Pause_spec. destruct (status p); done. Qed.

Lemma Resume_spec_tasks p : tasks (Resume_spec p).2 = tasks p.
Proof. unfold Resume_spec. destruct (status p); done. Qed.

(** The pool after the two first statements of [Submit], with the modelled
    [Start] and [CreateThread]: same queue, and never stopped. *)
Lemma scaled_up_tasks budget spawned now p :
  tasks (scaled_up (CreateThread_spec spawned now)
           (auto_started (Start_spec budget now) p)) = tasks p.
Proof.
  unfold scaled_up, auto_started.
  destruct (scale_up_wanted _).
  - rewrite (proj1 (CreateThread_spec_frame _ _ _)).
    destruct (Status_eqb (status p) STOP); [apply Start_spec_tasks|done].
  - destruct (Status_eqb (status p) STOP); [apply Start_spec_tasks|done].
Qed.

Lemma scaled_up_status budget spawned now p :
  status (scaled_up (CreateThread_spec spawned now)
            (auto_started (Start_spec budget now) p)) ≠ STOP.
Proof.
  assert (H : status (auto_started (Start_spec budget now) p) ≠ STOP).
  { unfold auto_started. destruct (status p) eqn:Hst; cbn; [|congruence..].
    rewrite Start_spec_status. done. }
  unfold scaled_up. destruct (scale_up_wanted _); [|done].
  rewrite (proj2 (CreateThread_spec_frame _ _ _)). done.
Qed.

(** ** Invariants of the transition system *)

Section SystemFacts.

Context {Val Exn : Type}.

Implicit Types (s : @System Val Exn) (ls : list (@Label Val Exn)).

Lemma submitted_app ls1 ls2 :
  submitted (ls1 ++ ls2) = submitted ls1 ++ submitted ls2.
Proof.
  induction ls1 as [|l ls1 IH]; [done|].
  destruct l; cbn; rewrite ?IH; done.
Qed.

Lemma dequeued_app ls1 ls2 :
  dequeued (ls1 ++ ls2) = dequeued ls1 ++ dequeued ls2.
Proof.
  induction ls1 as [|l ls1 IH]; [done|].
  destruct l; cbn; rewrite ?IH; done.
Qed.

(** A run of an entry that returns normally stores an outcome at the
    entry's address and changes nothing else. *)
Lemma run_task_Returns entry (h h' : gmap nat (@PackagedTask Val Exn)) :
  run_task entry h = (Returns tt, h') ->
  exists pt,
    h !! captured_task entry = Some pt
    /\ shared_state pt = Pending
    /\ h' = <[captured_task entry :=
               mkPackagedTask (stored_task pt) (outcome_state (stored_task pt tt))]> h.
Proof.
  unfold run_task, call_packaged_task.
  destruct (h !! captured_task entry) as [pt|] eqn:Hpt; [|intros [=]].
  destruct (shared_state pt) eqn:Hst; intros [=]; subst. eauto.
Qed.

Lemma resolved_insert_outcome (f : Future) t pt (h : gmap nat (@PackagedTask Val Exn)) :
  future_state f = t ->
  resolved f (<[t := mkPackagedTask (stored_task pt) (outcome_state (stored_task pt tt))]> h).
Proof.
  intros <-. unfold resolved, future_get. rewrite lookup_insert_eq.
  cbn. destruct (stored_task pt tt); cbn; eauto.
Qed.

Lemma resolved_insert_ne (f : Future) t pt (h : gmap nat (@PackagedTask Val Exn)) :
  future_state f ≠ t -> resolved f (<[t := pt]> h) <-> resolved f h.
Proof.
  intros Hne. unfold resolved, future_get. rewrite lookup_insert_ne; done.
Qed.

Lemma pending_insert_ne entry t pt (h : gmap nat (@PackagedTask Val Exn)) :
  captured_task entry ≠ t -> pending entry h -> pending entry (<[t := pt]> h).
Proof.
  intros Hne (pt' & Hpt' & Hpend). exists pt'.
  rewrite lookup_insert_ne; done.
Qed.

Lemma pending_not_fresh entry (h : gmap nat (@PackagedTask Val Exn)) :
  pending entry h -> captured_task entry ≠ fresh (dom h).
Proof.
  intros (pt & Hpt & _) Heq. rewrite Heq, fresh_address_unused in Hpt. done.
Qed.

(** An entry that is pending runs to a normal return. *)
Lemma run_task_pending entry (h : gmap nat (@PackagedTask Val Exn)) :
  pending entry h -> exists h', run_task entry h = (Returns tt, h').
Proof.
  intros (pt & Hpt & Hpend). unfold run_task, call_packaged_task.
  rewrite Hpt, Hpend. eauto.
Qed.

Lemma captured_task_inj (e1 e2 : Task) :
  captured_task e1 = captured_task e2 -> e1 = e2.
Proof. destruct e1, e2. cbn. congruence. Qed.

Lemma entry_of_inj (f g : Future) : entry_of f = entry_of g -> f = g.
Proof. destruct f, g. unfold entry_of. cbn. congruence. Qed.

Lemma Inv_fresh min_threads max_threads max_idle_ms :
  Inv (Val:=Val) (Exn:=Exn) [] (fresh_system min_threads max_threads max_idle_ms).
Proof.
  split; cbn.
  - done.
  - constructor.
  - intros f Hf. by apply elem_of_nil in Hf.
  - intros f Hf. by apply elem_of_nil in Hf.
  - intros e He. by apply elem_of_nil in He.
  - intros w e He. rewrite lookup_empty in He. done.
  - intros w1 w2 e He. rewrite lookup_empty in He. done.
Qed.

(** A step that changes neither the queue, nor the heap, nor the workers'
    entries. *)
Lemma Inv_pool_step ls s l s' :
  submitted [l] = [] -> dequeued [l] = [] ->
  tasks (pool (world s')) = tasks (pool (world s)) ->
  heap (world s') = heap (world s) ->
  busy s' = busy s ->
  Inv ls s -> Inv (ls ++ [l]) s'.
Proof.
  intros Hsub Hdeq Htasks Hheap Hbusy [H1 H2 H3 H4 H5 H6 H7].
  split; rewrite ?submitted_app, ?dequeued_app, ?Hsub, ?Hdeq, ?app_nil_r,
    ?Htasks, ?Hheap, ?Hbusy; done.
Qed.

(** In a state that satisfies the invariant, an entry that a worker holds
    is not in the queue. *)
Lemma Inv_busy_not_queued ls s worker entry :
  Inv ls s -> busy s !! worker = Some entry -> entry ∉ tasks (pool (world s)).
Proof.
  intros HI Hb Hin.
  pose proof (inv_nodup _ _ HI) as Hnd. rewrite (inv_fifo _ _ HI) in Hnd.
  apply NoDup_app in Hnd as (_ & Hdisj & _).
  apply (Hdisj entry); [|done].
  apply (inv_busy_pending _ _ HI worker entry Hb).
Qed.

Lemma Inv_Submit ls s budget spawned now fn f w' :
  Inv ls s ->
  Submit (Start_spec budget now) (CreateThread_spec spawned now) fn tt (world s)
    = (f, w') ->
  Inv (ls ++ [LSubmit fn f]) (mkSystem w' (busy s)).
Proof.
  intros [H1 H2 H3 H4 H5 H6 H7] Hsub.
  rewrite Submit_unfold in Hsub. injection Hsub as <- <-.
  set (t := fresh (dom (heap (world s)))) in *.
  assert (Hfresh : forall f, f ∈ submitted ls -> future_state f ≠ t).
  { intros f Hf Heq. apply H3 in Hf as [pt Hpt].
    rewrite Heq in Hpt. unfold t in Hpt.
    rewrite fresh_address_unused in Hpt. done. }
  split; rewrite ?submitted_app, ?dequeued_app; cbn [submitted dequeued];
    rewrite ?app_nil_r; cbn [world pool heap busy tasks set_tasks].
  - rewrite fmap_app, H1, scaled_up_tasks, <- app_assoc. done.
  - rewrite fmap_app. apply NoDup_app. split; [done|]. split; [|apply NoDup_singleton].
    intros e He Hin. apply list_elem_of_singleton in Hin. subst e.
    apply list_elem_of_fmap in He as (f & Hf & Hin).
    apply entry_of_inj in Hf. subst f. by apply (Hfresh _ Hin).
  - intros f Hf. apply elem_of_app in Hf as [Hf|Hf].
    + rewrite lookup_insert_ne; [by apply H3|]. intros Heq. by apply (Hfresh f Hf).
    + apply list_elem_of_singleton in Hf. subst f. cbn. rewrite lookup_insert_eq. eauto.
  - intros f Hf. apply elem_of_app in Hf as [Hf|Hf].
    + destruct (H4 f Hf) as [Hr|[Hq|Hb]].
      * left. apply resolved_insert_ne; [by apply Hfresh|done].
      * right; left. rewrite scaled_up_tasks. apply elem_of_app. by left.
      * right; right. done.
    + apply list_elem_of_singleton in Hf. subst f. right; left.
      apply elem_of_app. right. apply list_elem_of_singleton. done.
  - intros e He. rewrite scaled_up_tasks in He. apply elem_of_app in He as [He|He].
    + apply pending_insert_ne; [|by apply H5]. by apply pending_not_fresh, H5.
    + apply list_elem_of_singleton in He. subst e.
      eexists. cbn [captured_task]. rewrite lookup_insert_eq. done.
  - intros w e He. destruct (H6 w e He) as [Hd Hp]. split; [done|].
    apply pending_insert_ne; [|done]. by apply pending_not_fresh.
  - done.
Qed.

Lemma Inv_Dequeue ls s worker entry rest :
  Inv ls s ->
  busy s !! worker = None ->
  tasks (pool (world s)) = entry :: rest ->
  Inv (ls ++ [LDequeue worker entry]) (worker_dequeue worker entry rest s).
Proof.
  intros HI Hidle Hq.
  assert (Hnotbusy : forall w, busy s !! w ≠ Some entry).
  { intros w Hw. apply (Inv_busy_not_queued _ _ _ _ HI Hw).
    rewrite Hq. apply elem_of_cons. by left. }
  destruct HI as [H1 H2 H3 H4 H5 H6 H7]. unfold worker_dequeue.
  split; rewrite ?submitted_app, ?dequeued_app; cbn [submitted dequeued];
    rewrite ?app_nil_r; cbn [world pool heap busy tasks set_tasks set_workers].
  - rewrite H1, Hq, <- app_assoc. done.
  - done.
  - done.
  - intros f Hf. destruct (H4 f Hf) as [Hr|[Hin|[w Hb]]].
    + by left.
    + rewrite Hq in Hin. apply elem_of_cons in Hin as [Hin|Hin].
      * right; right. exists worker. subst entry. apply lookup_insert_eq.
      * right; left. done.
    + right; right. exists w. rewrite lookup_insert_ne; [done|].
      intros ->. rewrite Hidle in Hb. done.
  - intros e He. apply H5. rewrite Hq. apply elem_of_cons. by right.
  - intros w e He. destruct (decide (w = worker)) as [->|Hne].
    + rewrite lookup_insert_eq in He. injection He as <-. split.
      * apply elem_of_app. right. by apply list_elem_of_singleton.
      * apply H5. rewrite Hq. apply elem_of_cons. by left.
    + rewrite lookup_insert_ne in He; [|done].
      destruct (H6 w e He) as [Hd Hp]. split; [|done].
      apply elem_of_app. by left.
  - intros w1 w2 e He1 He2.
    destruct (decide (w1 = worker)) as [->|Hne1];
      destruct (decide (w2 = worker)) as [->|Hne2]; [done|..].
    + rewrite lookup_insert_eq in He1. injection He1 as <-.
      rewrite lookup_insert_ne in He2; [|done]. by apply Hnotbusy in He2.
    + rewrite lookup_insert_eq in He2. injection He2 as <-.
      rewrite lookup_insert_ne in He1; [|done]. by apply Hnotbusy in He1.
    + rewrite lookup_insert_ne in He1, He2; [|done..]. by apply (H7 w1 w2 e).
Qed.

Lemma Inv_Execute ls s worker entry h' :
  Inv ls s ->
  busy s !! worker = Some entry ->
  run_task entry (heap (world s)) = (Returns tt, h') ->
  Inv (ls ++ [LExecute worker entry]) (worker_execute worker h' s).
Proof.
  intros HI Hbusy Hexec.
  pose proof (Inv_busy_not_queued _ _ _ _ HI Hbusy) as Hnotq.
  destruct HI as [H1 H2 H3 H4 H5 H6 H7].
  apply run_task_Returns in Hexec as (pt & Hpt & Hpend & ->).
  unfold worker_execute.
  split; rewrite ?submitted_app, ?dequeued_app; cbn [submitted dequeued];
    rewrite ?app_nil_r; cbn [world pool heap busy tasks set_tasks set_workers].
  - done.
  - done.
  - intros f Hf. destruct (decide (future_state f = captured_task entry)) as [->|Hne].
    + rewrite lookup_insert_eq. eauto.
    + rewrite lookup_insert_ne; [by apply H3|done].
  - intros f Hf.
    destruct (decide (future_state f = captured_task entry)) as [Heq|Hne].
    + left. by apply resolved_insert_outcome.
    + destruct (H4 f Hf) as [Hr|[Hin|[w Hb]]].
      * left. apply resolved_insert_ne; done.
      * right; left. done.
      * right; right. exists w. rewrite lookup_delete_ne; [done|].
        intros ->. rewrite Hbusy in Hb. injection Hb as Hb.
        apply Hne. rewrite Hb. done.
  - intros e He. apply pending_insert_ne; [|by apply H5].
    intros Heq. apply captured_task_inj in Heq. subst e. done.
  - intros w e He. apply lookup_delete_Some in He as [Hne He].
    destruct (H6 w e He) as [Hd Hp]. split; [done|].
    apply pending_insert_ne; [|done].
    intros Heq. apply captured_task_inj in Heq. subst e.
    apply Hne. by apply (H7 worker w entry).
  - intros w1 w2 e He1 He2.
    apply lookup_delete_Some in He1 as [_ He1].
    apply lookup_delete_Some in He2 as [_ He2].
    by apply (H7 w1 w2 e).
Qed.

Lemma Inv_step ls s l s' : Inv ls s -> step s l s' -> Inv (ls ++ [l]) s'.
Proof.
  intros HI Hstep.
  destruct Hstep as
    [s n|s n|s ms|s budget now n|s|s|s|s Hw|s budget spawned now fn f w' Hsub
    |s worker entry rest Hreg Hidle Hrun Hq|s worker entry h' Hbusy Hexec
    |s worker Hreg Hidle Hrun Hq Hmin|s worker Hreg Hidle Hstop].
  - apply (Inv_pool_step ls s); done.
  - apply (Inv_pool_step ls s); done.
  - apply (Inv_pool_step ls s); done.
  - apply (Inv_pool_step ls s); [done|done|apply Start_spec_tasks|done..].
  - apply (Inv_pool_step ls s); [done|done|apply Stop_spec_tasks|done..].
  - apply (Inv_pool_step ls s); [done|done|apply Pause_spec_tasks|done..].
  - apply (Inv_pool_step ls s); [done|done|apply Resume_spec_tasks|done..].
  - apply (Inv_pool_step ls s); done.
  - by eapply Inv_Submit.
  - by apply Inv_Dequeue.
  - by apply Inv_Execute.
  - apply (Inv_pool_step ls s); done.
  - apply (Inv_pool_step ls s); done.
Qed.

Lemma run_Inv min_threads max_threads max_idle_ms ls s :
  run (fresh_system min_threads max_threads max_idle_ms) ls s -> Inv ls s.
Proof.
  intros Hrun.
  remember (fresh_system min_threads max_threads max_idle_ms) as s0 eqn:Hs0.
  induction Hrun as [|s0 ls s1 l s2 Hrun IH Hstep].
  - subst. apply Inv_fresh.
  - eapply Inv_step; [apply IH; done|done].
Qed.

(** A Busy worker is never stuck: the entry it holds runs to a normal
    return, so its [step_Execute] can be taken. *)
Lemma busy_worker_can_execute min_threads max_threads max_idle_ms ls s worker entry :
  run (fresh_system min_threads max_threads max_idle_ms) ls s ->
  busy s !! worker = Some entry ->
  exists s', step s (LExecute worker entry) s'.
Proof.
  intros Hrun Hbusy.
  destruct (inv_busy_pending _ _ (run_Inv _ _ _ _ _ Hrun) worker entry Hbusy)
    as [_ Hp].
  apply run_task_pending in Hp as [h' Hh'].
  exists (worker_execute worker h' s). by apply step_Execute.
Qed.

Lemma Pause_spec_status p :
  status (Pause_spec p).2 = STOP -> (Pause_spec p).2 = p.
Proof. unfold Pause_spec. destruct (status p); done. Qed.

Lemma Resume_spec_status p :
  status (Resume_spec p).2 = STOP -> (Resume_spec p).2 = p.
Proof. unfold Resume_spec. destruct (status p); done. Qed.

Lemma quiet_step ls s l s' :
  quiet_if_stopped ls s -> step s l s' -> quiet_if_stopped (ls ++ [l]) s'.
Proof.
  intros HQ Hstep Hnostop Hstopped.
  assert (Hnostop' : LStop ∉ ls).
  { intros Hin. apply Hnostop, elem_of_app. by left. }
  specialize (HQ Hnostop').
  destruct Hstep as
    [s n|s n|s ms|s budget now n|s|s|s|s Hw|s budget spawned now fn f w' Hsub
    |s worker entry rest Hreg Hidle Hrun Hq|s worker entry h' Hbusy Hexec
    |s worker Hreg Hidle Hrun Hq Hmin|s worker Hreg Hidle Hstop];
    unfold worker_dequeue, worker_execute in *;
    cbn [with_pool world pool busy status tasks snd
         SetMinThreadNum SetMaxThreadNum SetMaxIdleTime] in *.
  - by apply HQ.
  - by apply HQ.
  - by apply HQ.
  - rewrite Start_spec_status in Hstopped. done.
  - exfalso. apply Hnostop, elem_of_app. right. by apply list_elem_of_singleton.
  - pose proof (Pause_spec_status _ Hstopped) as E.
    rewrite E in Hstopped |- *. by apply HQ.
  - pose proof (Resume_spec_status _ Hstopped) as E.
    rewrite E in Hstopped |- *. by apply HQ.
  - by apply HQ.
  - rewrite Submit_unfold in Hsub. injection Hsub as <- <-.
    cbn in Hstopped. by apply scaled_up_status in Hstopped.
  - cbn in Hstopped. congruence.
  - cbn in Hstopped. destruct (HQ Hstopped) as [_ Hb].
    rewrite Hb, lookup_empty in Hbusy. done.
  - cbn in Hstopped. congruence.
  - by apply HQ.
Qed.

Lemma run_quiet min_threads max_threads max_idle_ms ls s :
  run (fresh_system min_threads max_threads max_idle_ms) ls s ->
  quiet_if_stopped ls s.
Proof.
  intros Hrun.
  remember (fresh_system min_threads max_threads max_idle_ms) as s0 eqn:Hs0.
  induction Hrun as [|s0 ls s1 l s2 Hrun IH Hstep].
  - subst. intros _ _. done.
  - eapply quiet_step; [apply IH; done|done].
Qed.

Lemma no_worker_step s l s' :
  is_Start_or_Submit l = false -> no_worker s -> step s l s' -> no_worker s'.
Proof.
  intros Hl (Hst & Hth & Hcur & Hidle & Hb) Hstep.
  destruct Hstep as
    [s n|s n|s ms|s budget now n|s|s|s|s Hw|s budget spawned now fn f w' Hsub
    |s worker entry rest Hreg Hidle' Hrun Hq|s worker entry h' Hbusy Hexec
    |s worker Hreg Hidle' Hrun Hq Hmin|s worker Hreg Hidle' Hstop];
    try discriminate Hl; unfold no_worker, worker_dequeue, worker_execute;
    cbn [with_pool world pool busy status tasks snd threads cur_thread_num
         idle_thread_num SetMinThreadNum SetMaxThreadNum SetMaxIdleTime].
  - done.
  - done.
  - done.
  - unfold Stop_spec. rewrite Hst. done.
  - unfold Pause_spec. rewrite Hst. done.
  - unfold Resume_spec. rewrite Hst. done.
  - done.
  - unfold registered in Hreg. rewrite Hth in Hreg. by apply elem_of_nil in Hreg.
  - rewrite Hb, lookup_empty in Hbusy. done.
  - congruence.
  - unfold registered in Hreg. rewrite Hth in Hreg. by apply elem_of_nil in Hreg.
Qed.

Lemma run_no_worker min_threads max_threads max_idle_ms ls s :
  run (fresh_system min_threads max_threads max_idle_ms) ls s ->
  Forall (fun l => is_Start_or_Submit l = false) ls ->
  no_worker s.
Proof.
  intros Hrun.
  remember (fresh_system min_threads max_threads max_idle_ms) as s0 eqn:Hs0.
  induction Hrun as [|s0 ls s1 l s2 Hrun IH Hstep]; intros Hls.
  - subst. repeat split.
  - apply Forall_app in Hls as [Hls Hl]. apply Forall_cons in Hl as [Hl _].
    eapply no_worker_step; [exact Hl|apply IH; done|exact Hstep].
Qed.

Lemma step_Wait_inv s s' : step s LWait s' -> s' = s /\ Wait_returns s = true.
Proof. intros Hstep. inversion Hstep; subst. done. Qed.

(** C4: in every run from a fresh pool, the entries of the futures that
    the calls of [Submit] returned, taken in the order of the calls, are
    the entries dequeued so far, in the order they were dequeued, followed
    by the queue from front to back; the entries are pairwise distinct, so
    no entry is dequeued twice and no dequeued entry is in the queue
    again. *)
Theorem queue_is_fifo min_threads max_threads max_idle_ms ls s :
  run (fresh_system min_threads max_threads max_idle_ms) ls s ->
  entry_of <$> submitted ls = dequeued ls ++ tasks (pool (world s))
  /\ NoDup (dequeued ls ++ tasks (pool (world s)))
  /\ NoDup (dequeued ls)
  /\ (forall entry, entry ∈ dequeued ls -> entry ∉ tasks (pool (world s))).
Proof.
  intros Hrun. apply run_Inv in Hrun as [Hfifo Hnodup _ _].
  rewrite Hfifo in Hnodup.
  split; [exact Hfifo|]. split; [exact Hnodup|].
  apply NoDup_app in Hnodup as (Hd & Hdisj & _).
  split; [exact Hd|exact Hdisj].
Qed.

(** The last step of a run. *)
Lemma run_snoc_inv s0 ls l s :
  run s0 (ls ++ [l]) s -> exists s1, run s0 ls s1 /\ step s1 l s.
Proof.
  intros Hrun. remember (ls ++ [l]) as ls' eqn:E.
  destruct Hrun as [s1|s1 ls1 s2 l' s3 Hrun Hstep].
  - destruct ls; discriminate E.
  - apply app_inj_tail in E as [-> ->]. eauto.
Qed.

(** After a call of [Submit] the pool is not stopped, and only [Stop]
    stops a pool. *)
Lemma step_Submit_started s fn f s' :
  step s (LSubmit fn f) s' -> status (pool (world s')) ≠ STOP.
Proof.
  intros Hstep.
  inversion Hstep as [| | | | | | | |s1 budget spawned now fn' f' w' Hsub| | | |]; subst.
  rewrite Submit_unfold in Hsub. injection Hsub as <- <-.
  cbn [world pool status set_tasks]. apply scaled_up_status.
Qed.

Lemma step_keeps_started s l s' :
  step s l s' -> l ≠ LStop ->
  status (pool (world s)) ≠ STOP -> status (pool (world s')) ≠ STOP.
Proof.
  intros Hstep Hl Hst.
  destruct Hstep as
    [s n|s n|s ms|s budget now n|s|s|s|s Hw|s budget spawned now fn f w' Hsub
    |s worker entry rest Hreg Hidle Hrun Hq|s worker entry h' Hbusy Hexec
    |s worker Hreg Hidle Hrun Hq Hmin|s worker Hreg Hidle Hstop];
    unfold worker_dequeue, worker_execute;
    cbn [with_pool world pool busy status tasks snd
         SetMinThreadNum SetMaxThreadNum SetMaxIdleTime set_workers set_tasks
         DelThread_spec].
  - done.
  - done.
  - done.
  - rewrite Start_spec_status. done.
  - done.
  - unfold Pause_spec.
    destruct (status (pool (world s))) eqn:E; cbn [snd status set_status]; congruence.
  - unfold Resume_spec.
    destruct (status (pool (world s))) eqn:E; cbn [snd status set_status]; congruence.
  - done.
  - apply (step_Submit_started s fn f (mkSystem w' (busy s))). by eapply step_Submit.
  - done.
  - done.
  - done.
  - done.
Qed.

(** A pool into which a task was submitted, and which was not stopped
    since the part of the run that holds the submission began, is not
    stopped. *)
Lemma run_started_since s0 ls0 ls1 s :
  run s0 (ls0 ++ ls1) s ->
  LStop ∉ ls1 -> submitted ls1 ≠ [] -> status (pool (world s)) ≠ STOP.
Proof.
  revert s. induction ls1 as [|l ls1 IH] using rev_ind; intros s Hrun Hnostop Hsub.
  - done.
  - rewrite app_assoc in Hrun. apply run_snoc_inv in Hrun as (s1 & Hrun & Hstep).
    assert (Hl : l ≠ LStop).
    { intros ->. apply Hnostop, elem_of_app. right. by apply list_elem_of_singleton. }
    assert (Hnostop' : LStop ∉ ls1).
    { intros Hin. apply Hnostop, elem_of_app. by left. }
    rewrite submitted_app in Hsub.
    destruct (submitted ls1) as [|f0 fs] eqn:Hs1.
    + destruct l; cbn in Hsub; try done.
      by apply (step_Submit_started _ _ _ _ Hstep).
    + apply (step_keeps_started _ _ _ Hstep Hl).
      apply (IH s1 Hrun Hnostop'). done.
Qed.

(** C8: take any run from a fresh pool and the part of it since some
    point, in which tasks are submitted and [Stop] is not called.  When
    [Wait] then returns, every future that a call of [Submit] returned in
    that part is resolved (its shared state holds a value or an
    exception), and [Wait] leaves the pool as it is, its status included.
    If a task was submitted in that part, or [Stop] was never called, or
    the pool is not stopped, then moreover the queue is empty, no worker
    is Busy, and the futures of the whole run are resolved. *)
Theorem Wait_completeness min_threads max_threads max_idle_ms ls0 ls1 s s' :
  run (fresh_system min_threads max_threads max_idle_ms) (ls0 ++ ls1) s ->
  LStop ∉ ls1 ->
  step s LWait s' ->
  s' = s
  /\ status (pool (world s')) = status (pool (world s))
  /\ (forall f, f ∈ submitted ls1 -> resolved f (heap (world s')))
  /\ (submitted ls1 ≠ [] \/ LStop ∉ ls0 \/ status (pool (world s)) ≠ STOP ->
      tasks (pool (world s)) = []
      /\ busy s = ∅
      /\ forall f, f ∈ submitted (ls0 ++ ls1) -> resolved f (heap (world s'))).
Proof.
  intros Hrun Hnostop Hwait.
  apply step_Wait_inv in Hwait as [-> Hret].
  assert (Hguard : status (pool (world s)) ≠ STOP ->
                   tasks (pool (world s)) = [] /\ busy s = ∅).
  { intros Hst. unfold Wait_returns in Hret.
    apply orb_true_iff in Hret as [Hstop|Hq].
    - destruct (status (pool (world s))); done.
    - apply andb_true_iff in Hq as [Hq Hb].
      apply bool_decide_eq_true in Hq, Hb. done. }
  assert (Hall : tasks (pool (world s)) = [] -> busy s = ∅ ->
                 forall f, f ∈ submitted (ls0 ++ ls1) -> resolved f (heap (world s))).
  { intros Hq Hb f Hf.
    destruct (inv_where _ _ (run_Inv _ _ _ _ _ Hrun) f Hf) as [Hr|[Hin|[w Hw]]].
    - exact Hr.
    - rewrite Hq in Hin. by apply elem_of_nil in Hin.
    - rewrite Hb, lookup_empty in Hw. done. }
  split; [done|]. split; [done|]. split.
  - intros f Hf.
    assert (Hsub : submitted ls1 ≠ []).
    { intros E. rewrite E in Hf. by apply elem_of_nil in Hf. }
    destruct (Hguard (run_started_since _ _ _ _ Hrun Hnostop Hsub)) as [Hq Hb].
    apply (Hall Hq Hb). rewrite submitted_app. apply elem_of_app. by right.
  - intros Hcase.
    assert (Hidle : tasks (pool (world s)) = [] /\ busy s = ∅).
    { destruct Hcase as [Hsub|[Hnostop0|Hst]].
      - apply Hguard. by apply (run_started_since _ _ _ _ Hrun Hnostop).
      - destruct (status (pool (world s))) eqn:Hst.
        + apply (run_quiet _ _ _ _ _ Hrun); [|done].
          intros Hin. apply elem_of_app in Hin as [Hin|Hin]; done.
        + apply Hguard. discriminate.
        + apply Hguard. discriminate.
      - by apply Hguard. }
    destruct Hidle as [Hq Hb]. split; [done|]. split; [done|]. by apply Hall.
Qed.

(** C10: a pool that has just been constructed is stopped, with both
    worker counts zero and an empty registry, and stays so through every
    run in which neither [Start] nor [Submit] is called; the minimum
    worker count of a default-constructed pool is nevertheless 1. *)
Theorem fresh_pool_has_no_worker min_threads max_threads max_idle_ms
  hardware_concurrency ls s :
  run (fresh_system min_threads max_threads max_idle_ms) ls s ->
  Forall (fun l => is_Start_or_Submit l = false) ls ->
  (status (ThreadPool_new min_threads max_threads max_idle_ms) = STOP
   /\ cur_thread_num (ThreadPool_new min_threads max_threads max_idle_ms) = 0
   /\ idle_thread_num (ThreadPool_new min_threads max_threads max_idle_ms) = 0
   /\ threads (ThreadPool_new min_threads max_threads max_idle_ms) = [])
  /\ (status (pool (world s)) = STOP
      /\ GetCurrentThreadNum (pool (world s)) = 0
      /\ GetIdleThreadNum (pool (world s)) = 0
      /\ threads (pool (world s)) = []
      /\ busy s = ∅)
  /\ min_thread_num (ThreadPool_default hardware_concurrency) = 1.
Proof.
  intros Hrun Hls.
  destruct (run_no_worker _ _ _ _ _ Hrun Hls) as (Hst & Hth & Hcur & Hidle & Hb).
  repeat split; done.
Qed.

End SystemFacts.

(** ** The status predicates and the configuration mutators *)

(** C9: in every state of the pool exactly one of [IsStarted] and
    [IsStopped] holds; [IsStopped] holds exactly when the status is STOP,
    and [IsStarted] holds when it is RUNNING and when it is PAUSE. *)
Theorem IsStarted_xor_IsStopped (p : ThreadPool) :
  xorb (IsStarted p) (IsStopped p) = true
  /\ (IsStopped p = true <-> status p = STOP)
  /\ (IsStarted p = true <-> status p = RUNNING \/ status p = PAUSE).
Proof.
  unfold IsStarted, IsStopped.
  destruct (status p); cbn; intuition congruence.
Qed.

(** C6, as the code has it: the three mutators check nothing.  Each
    stores its argument, leaves every other member as it was and returns
    nothing, whatever the argument; so a maximum below the minimum, or a
    minimum above the maximum, is stored like any other value, and the
    configuration is then inconsistent. *)
Theorem mutators_store_unchecked (n : N) (ms : Z) (p : ThreadPool) :
  ((SetMaxThreadNum n p).1 = tt
   /\ max_thread_num (SetMaxThreadNum n p).2 = n
   /\ min_thread_num (SetMaxThreadNum n p).2 = min_thread_num p
   /\ max_idle_time (SetMaxThreadNum n p).2 = max_idle_time p
   /\ same_workers_and_queue p (SetMaxThreadNum n p).2
   /\ (config_ok (SetMaxThreadNum n p).2 <-> min_thread_num p <= n))
  /\ ((SetMinThreadNum n p).1 = tt
      /\ min_thread_num (SetMinThreadNum n p).2 = n
      /\ max_thread_num (SetMinThreadNum n p).2 = max_thread_num p
      /\ max_idle_time (SetMinThreadNum n p).2 = max_idle_time p
      /\ same_workers_and_queue p (SetMinThreadNum n p).2
      /\ (config_ok (SetMinThreadNum n p).2 <-> n <= max_thread_num p))
  /\ ((SetMaxIdleTime ms p).1 = tt
      /\ max_idle_time (SetMaxIdleTime ms p).2 = ms
      /\ min_thread_num (SetMaxIdleTime ms p).2 = min_thread_num p
      /\ max_thread_num (SetMaxIdleTime ms p).2 = max_thread_num p
      /\ same_workers_and_queue p (SetMaxIdleTime ms p).2
      /\ (config_ok (SetMaxIdleTime ms p).2 <-> config_ok p)).
Proof.
  unfold config_ok, same_workers_and_queue,
    SetMaxThreadNum, SetMinThreadNum, SetMaxIdleTime.
  cbn [fst snd min_thread_num max_thread_num max_idle_time status
       cur_thread_num idle_thread_num threads tasks].
  repeat split; auto.
Qed.

(** C6, as the specification has it, fails: on a default pool of a host
    with four hardware threads, [SetMaxThreadNum 0] returns nothing and
    stores a maximum of 0 under the minimum of 1. *)
Lemma SetMaxThreadNum_accepts_max_below_min :
  config_ok (ThreadPool_default 4)
  /\ 0 < min_thread_num (ThreadPool_default 4)
  /\ SetMaxThreadNum 0 (ThreadPool_default 4)
     = (tt, mkThreadPool 1 0 250 STOP 0 0 [] [])
  /\ ~ config_ok (SetMaxThreadNum 0 (ThreadPool_default 4)).2.
Proof.
  unfold config_ok, ThreadPool_default, ThreadPool_new, SetMaxThreadNum,
    CPR_DEFAULT_THREAD_POOL_MIN_THREAD_NUM, CPR_DEFAULT_THREAD_POOL_MAX_IDLE_TIME.
  cbn [min_thread_num max_thread_num snd].
  split; [lia|]. split; [lia|]. split; [reflexivity|]. lia.
Qed.

(** ** The theorems at the sample run *)

Lemma sample_step1 : step sample0 (LSubmit sample_fn1 (mkFuture 0)) sample1.
Proof.
  assert (E : Submit (Start_spec 2 0) (CreateThread_spec true 0) sample_fn1 tt
                (world sample0) = (mkFuture 0, world sample1)).
  { vm_compute. reflexivity. }
  exact (step_Submit sample0 2%nat true 0 sample_fn1 (mkFuture 0) (world sample1) E).
Defined.

Lemma sample_step2 : step sample1 (LSubmit sample_fn2 (mkFuture 1)) sample2.
Proof.
  assert (E : Submit (Start_spec 0 1) (CreateThread_spec false 1) sample_fn2 tt
                (world sample1) = (mkFuture 1, world sample2)).
  { vm_compute. reflexivity. }
  exact (step_Submit sample1 0%nat false 1 sample_fn2 (mkFuture 1) (world sample2) E).
Defined.

Lemma sample_registered (s : @System Z nat) :
  threads (pool (world s)) = [mkThreadData 1 RUNNING 0 0] ->
  registered 1 (pool (world s)).
Proof.
  intros H. unfold registered. rewrite H. apply list_elem_of_singleton. reflexivity.
Defined.

Lemma sample_step3 : step sample2 (LDequeue 1 (mkTask 0)) sample3.
Proof.
  refine (step_Dequeue sample2 1%nat (mkTask 0) [mkTask 1] _ _ _ _).
  - apply sample_registered. reflexivity.
  - vm_compute. reflexivity.
  - reflexivity.
  - reflexivity.
Defined.

Lemma sample_step4 : step sample3 (LExecute 1 (mkTask 0)) sample4.
Proof.
  refine (step_Execute sample3 1%nat (mkTask 0) (heap (world sample4)) _ _).
  - vm_compute. reflexivity.
  - vm_compute. reflexivity.
Defined.

Lemma sample_step5 : step sample4 (LDequeue 1 (mkTask 1)) sample5.
Proof.
  refine (step_Dequeue sample4 1%nat (mkTask 1) [] _ _ _ _).
  - apply sample_registered. reflexivity.
  - vm_compute. reflexivity.
  - reflexivity.
  - reflexivity.
Defined.

Lemma sample_step6 : step sample5 (LExecute 1 (mkTask 1)) sample6.
Proof.
  refine (step_Execute sample5 1%nat (mkTask 1) (heap (world sample6)) _ _).
  - vm_compute. reflexivity.
  - vm_compute. reflexivity.
Defined.

Lemma sample_run3 : run sample0 (take 3 sample_labels) sample3.
Proof.
  refine (run_snoc _ (take 2 sample_labels) sample2 _ _ _ sample_step3).
  refine (run_snoc _ (take 1 sample_labels) sample1 _ _ _ sample_step2).
  exact (run_snoc _ [] sample0 _ _ (run_nil _) sample_step1).
Defined.

Lemma sample_run6 : run sample0 sample_labels sample6.
Proof.
  refine (run_snoc _ (take 5 sample_labels) sample5 _ _ _ sample_step6).
  refine (run_snoc _ (take 4 sample_labels) sample4 _ _ _ sample_step5).
  exact (run_snoc _ (take 3 sample_labels) sample3 _ _ sample_run3 sample_step4).
Defined.

Lemma idle_run : run sample0 idle_labels idle_sample.
Proof.
  refine (run_snoc _ (take 3 idle_labels) idle_sample _ _ _ (step_Wait idle_sample eq_refl)).
  refine (run_snoc _ (take 2 idle_labels) idle_sample _ _ _ (step_Stop _)).
  refine (run_snoc _ (take 1 idle_labels) idle_sample _ _ _ (step_Pause _)).
  exact (run_snoc _ [] sample0 _ _ (run_nil _) (step_SetMaxThreadNum _ 0)).
Defined.

Lemma sample_labels_no_Stop : LStop ∉ sample_labels.
Proof.
  intros H. unfold sample_labels in H.
  repeat (apply elem_of_cons in H as [H|H]; [discriminate H|]).
  apply elem_of_nil in H. exact H.
Defined.

(** The hypotheses of C7 hold when the host can spawn no thread: [Start]
    fails to create the first worker, the scale-up step tries again and
    fails, and the task is queued all the same. *)
Lemma Submit_survives_CreateThread_failure_witness :
  let w := mkWorld (ThreadPool_default 4) (∅ : gmap nat (@PackagedTask Z nat)) [] in
  let r := Submit (Start_spec 0 0) (CreateThread_spec false 0)
             (fun x : Z => Returns (x + 1)%Z) 41%Z w in
  scale_up_wanted (auto_started (Start_spec 0 0) (pool w)) = true
  /\ r.1 = mkFuture 0
  /\ tasks (pool r.2) = [mkTask 0]
  /\ threads (pool r.2) = []
  /\ cur_thread_num (pool r.2) = 0
  /\ future_get r.1 (heap r.2) = None.
Proof.
  intros w r.
  destruct (Submit_survives_CreateThread_failure (Start_spec 0 0)
              (CreateThread_spec false 0) (fun x : Z => Returns (x + 1)%Z) 41%Z w
              (auto_started (Start_spec 0 0) (pool w)) eq_refl
              (CreateThread_spec_failure 0 _))
    as (_ & Ht & _ & Hth & Hc & _).
  split; [reflexivity|].
  split; [reflexivity|].
  split; [exact Ht|].
  split; [exact Hth|].
  split; [exact Hc|].
  reflexivity.
Defined.

(** C4 at the sample run, after the worker has dequeued the first entry. *)
Lemma queue_is_fifo_witness :
  run sample0 (take 3 sample_labels) sample3
  /\ entry_of <$> submitted (take 3 sample_labels) = [mkTask 0; mkTask 1]
  /\ dequeued (take 3 sample_labels) = [mkTask 0]
  /\ tasks (pool (world sample3)) = [mkTask 1]
  /\ NoDup (dequeued (take 3 sample_labels) ++ tasks (pool (world sample3))).
Proof.
  destruct (queue_is_fifo 1 4 250 (take 3 sample_labels) sample3 sample_run3)
    as (_ & Hnodup & _).
  split; [exact sample_run3|].
  split; [reflexivity|].
  split; [reflexivity|].
  split; [reflexivity|].
  exact Hnodup.
Defined.

(** Runs follow one another. *)
Lemma run_app {Val Exn : Type} (s0 s1 s2 : @System Val Exn) ls0 ls1 :
  run s0 ls0 s1 -> run s1 ls1 s2 -> run s0 (ls0 ++ ls1) s2.
Proof.
  intros H0 H1. induction H1 as [s1|s1 ls1 s2 l s3 H1 IH Hstep].
  - rewrite app_nil_r. exact H0.
  - rewrite app_assoc. exact (run_snoc _ _ _ _ _ (IH H0) Hstep).
Defined.

Lemma sample_run_Stop : run sample0 [LStop] sample0.
Proof. exact (run_snoc _ [] sample0 LStop _ (run_nil _) (step_Stop sample0)). Defined.

(** C8 at the sample run, taken after a first call of [Stop] on the fresh
    pool: both futures are resolved when [Wait] returns. *)
Lemma Wait_completeness_witness :
  run sample0 ([LStop] ++ sample_labels) sample6
  /\ (LStop ∉ sample_labels)
  /\ step sample6 LWait sample6
  /\ future_get (mkFuture 0) (heap (world sample6)) = Some (Returns 7%Z)
  /\ future_get (mkFuture 1) (heap (world sample6))
     = Some (Throws (user_exception 3%nat))
  /\ (forall f, f ∈ submitted sample_labels -> resolved f (heap (world sample6)))
  /\ tasks (pool (world sample6)) = []
  /\ busy sample6 = ∅.
Proof.
  pose proof (run_app _ _ _ _ _ sample_run_Stop sample_run6) as Hrun.
  destruct (Wait_completeness 1 4 250 [LStop] sample_labels sample6 sample6 Hrun
              sample_labels_no_Stop (step_Wait sample6 eq_refl))
    as (_ & _ & Hres & Hidle).
  destruct Hidle as (Hq & Hb & _).
  { left. discriminate. }
  split; [exact Hrun|].
  split; [exact sample_labels_no_Stop|].
  split; [exact (step_Wait sample6 eq_refl)|].
  split; [vm_compute; reflexivity|].
  split; [vm_compute; reflexivity|].
  split; [exact Hres|]. split; [exact Hq|exact Hb].
Defined.

(** C10 at a pool that is configured, paused, stopped and waited on, and
    never started. *)
Lemma fresh_pool_has_no_worker_witness :
  run sample0 idle_labels idle_sample
  /\ status (pool (world idle_sample)) = STOP
  /\ GetCurrentThreadNum (pool (world idle_sample)) = 0
  /\ GetIdleThreadNum (pool (world idle_sample)) = 0
  /\ threads (pool (world idle_sample)) = [].
Proof.
  assert (Hls : Forall (fun l : @Label Z nat => is_Start_or_Submit l = false)
                  idle_labels).
  { repeat constructor. }
  destruct (fresh_pool_has_no_worker 1 4 250 4 idle_labels idle_sample idle_run Hls)
    as (_ & (Hst & Hcur & Hidle & Hth & _) & _).
  split; [exact idle_run|].
  split; [exact Hst|].
  split; [exact Hcur|].
  split; [exact Hidle|].
  exact Hth.
Defined.

(** * Further properties of the header *)

(** ** What [Submit] does with [Start] and [CreateThread] *)

Section SubmitCalls.

Context {Val Exn : Type}.

(** X1: [Submit] uses [Start] and [CreateThread] for their effect on the
    pool only: it drops the [int] and the [bool] they return.  Two pairs of
    functions that leave the same pools give the same future, the same
    pool, the same heap and the same trace. *)
Theorem Submit_drops_results
  (Start Start' : N -> ThreadPool -> Z * ThreadPool)
  (CreateThread CreateThread' : ThreadPool -> bool * ThreadPool)
  {A} (fn : A -> @Outcome Exn Val) (args : A) (w : World) :
  (forall n p, (Start n p).2 = (Start' n p).2) ->
  (forall p, (CreateThread p).2 = (CreateThread' p).2) ->
  Submit Start CreateThread fn args w = Submit Start' CreateThread' fn args w.
Proof.
  intros HS HC. rewrite !Submit_unfold.
  assert (E1 : auto_started Start (pool w) = auto_started Start' (pool w)).
  { unfold auto_started. rewrite HS. reflexivity. }
  rewrite E1.
  assert (E2 : scaled_up CreateThread (auto_started Start' (pool w))
               = scaled_up CreateThread' (auto_started Start' (pool w))).
  { unfold scaled_up. rewrite HC. reflexivity. }
  rewrite E2. reflexivity.
Qed.

Variable Start : N -> ThreadPool -> Z * ThreadPool.
Variable CreateThread : ThreadPool -> bool * ThreadPool.

(** X2: [Submit] never writes the status.  On a pool that is not stopped
    it does not call [Start], and when [CreateThread] leaves the status
    alone the status after the call is the status before: a paused pool
    is still paused, with the task queued, and [IsStarted] still holds. *)
Theorem Submit_keeps_status {A} (fn : A -> @Outcome Exn Val) (args : A) (w : World) :
  status (pool w) ≠ STOP ->
  (forall p, status (CreateThread p).2 = status p) ->
  let r := Submit Start CreateThread fn args w in
  status (pool r.2) = status (pool w)
  /\ IsStarted (pool r.2) = true
  /\ (forall e, e ∈ events_of (Submit Start CreateThread fn args) w ->
        is_EvStart e = false)
  /\ last (tasks (pool r.2)) = Some (entry_of r.1).
Proof.
  intros Hst HC r. subst r.
  assert (Hb : Status_eqb (status (pool w)) STOP = false).
  { destruct (status (pool w)); done. }
  rewrite Submit_events, Submit_unfold. unfold auto_started, entry_of.
  rewrite Hb. cbn [fst snd pool tasks set_tasks status future_state].
  assert (Hs : status (scaled_up CreateThread (pool w)) = status (pool w)).
  { unfold scaled_up. destruct (scale_up_wanted (pool w)); [apply HC|done]. }
  split; [exact Hs|].
  split.
  { unfold IsStarted, set_tasks. cbn [status]. rewrite Hs, Hb. reflexivity. }
  split; [|apply last_snoc].
  intros e He. cbn [app] in He. apply elem_of_app in He as [He|He].
  - destruct (scale_up_wanted (pool w)).
    + apply list_elem_of_singleton in He as ->. reflexivity.
    + apply elem_of_nil in He as [].
  - unfold enqueue_events in He.
    repeat (apply elem_of_cons in He as [->|He]; [reflexivity|]).
    apply elem_of_nil in He as [].
Qed.


(** X4: [Submit] reads neither [min_thread_num] nor [max_idle_time].  On a
    pool that is not stopped, a call of [SetMinThreadNum] or of
    [SetMaxIdleTime] before [Submit] changes neither the operations
    [Submit] performs, nor the future it returns, nor the heap. *)
Theorem Submit_ignores_min_and_idle_time {A} (fn : A -> @Outcome Exn Val)
  (args : A) (n : N) (ms : Z) (w : World) :
  status (pool w) ≠ STOP ->
  let w1 := with_pool_of (SetMinThreadNum n (pool w)).2 w in
  let w2 := with_pool_of (SetMaxIdleTime ms (pool w)).2 w in
  (events_of (Submit Start CreateThread fn args) w1
     = events_of (Submit Start CreateThread fn args) w
   /\ (Submit Start CreateThread fn args w1).1 = (Submit Start CreateThread fn args w).1
   /\ heap (Submit Start CreateThread fn args w1).2
      = heap (Submit Start CreateThread fn args w).2)
  /\ (events_of (Submit Start CreateThread fn args) w2
        = events_of (Submit Start CreateThread fn args) w
      /\ (Submit Start CreateThread fn args w2).1 = (Submit Start CreateThread fn args w).1
      /\ heap (Submit Start CreateThread fn args w2).2
         = heap (Submit Start CreateThread fn args w).2).
Proof.
  intros Hst w1 w2. subst w1 w2.
  assert (Hb : Status_eqb (status (pool w)) STOP = false).
  { destruct (status (pool w)); done. }
  rewrite !Submit_events, !Submit_unfold.
  unfold with_pool_of, SetMinThreadNum, SetMaxIdleTime, auto_started, scale_up_wanted.
  cbn [fst snd pool heap status idle_thread_num cur_thread_num max_thread_num].
  rewrite Hb. repeat split.
Qed.

End SubmitCalls.

(** ** Calls of [Submit] one after the other *)

Section SubmitSequences.

Context {Val Exn : Type}.
Variable Start : N -> ThreadPool -> Z * ThreadPool.
Variable CreateThread : ThreadPool -> bool * ThreadPool.

Lemma Submit_all_cons (fn : unit -> @Outcome Exn Val) rest (w : World) :
  Submit_all Start CreateThread (fn :: rest) w =
    ((Submit Start CreateThread fn tt w).1
       :: (Submit_all Start CreateThread rest (Submit Start CreateThread fn tt w).2).1,
     (Submit_all Start CreateThread rest (Submit Start CreateThread fn tt w).2).2).
Proof.
  cbn [Submit_all]. unfold mbind, M_bind, mret, M_ret.
  destruct (Submit Start CreateThread fn tt w) as [f w1]. cbn [fst snd].
  destruct (Submit_all Start CreateThread rest w1) as [fs w2]. reflexivity.
Qed.

Lemma lock_discipline_app held tr1 tr2 :
  lock_discipline held (tr1 ++ tr2) =
    match lock_discipline held tr1 with
    | Some held' => lock_discipline held' tr2
    | None => None
    end.
Proof.
  revert held. induction tr1 as [|e tr1 IH]; intros held; [done|].
  cbn [app lock_discipline].
  destruct e as [n| |t|t|m|m|t|c].
  - destruct held; [apply IH|done].
  - destruct held; [apply IH|done].
  - apply IH.
  - apply IH.
  - destruct (holds m held); [done|apply IH].
  - destruct held as [|m' held']; [done|]. destruct (Mutex_eqb m m'); [apply IH|done].
  - destruct (holds task_mutex held); [apply IH|done].
  - destruct held; [apply IH|done].
Qed.

Lemma Submit_events_disciplined {A} (fn : A -> @Outcome Exn Val) (args : A)
  (w : World) :
  lock_discipline [] (events_of (Submit Start CreateThread fn args) w) = Some [].
Proof.
  rewrite Submit_events. unfold enqueue_events.
  destruct (Status_eqb (status (pool w)) STOP);
    destruct (scale_up_wanted (auto_started Start (pool w))); reflexivity.
Qed.

Lemma Submit_all_trace (calls : list (unit -> @Outcome Exn Val)) (w : World) :
  exists evs,
    trace (Submit_all Start CreateThread calls w).2 = trace w ++ evs
    /\ lock_discipline [] evs = Some [].
Proof.
  revert w. induction calls as [|fn rest IH]; intros w.
  - exists []. cbn. rewrite app_nil_r. done.
  - rewrite Submit_all_cons. cbn [snd].
    destruct (IH (Submit Start CreateThread fn tt w).2) as (evs & Htr & Hd).
    exists (events_of (Submit Start CreateThread fn tt) w ++ evs).
    rewrite Htr, Submit_trace, <- app_assoc. split; [done|].
    rewrite lock_discipline_app, Submit_events_disciplined. exact Hd.
Qed.

(** X5: whatever the number of calls of [Submit] and whatever [Start] and
    [CreateThread] do to the pool, the operations the calls perform keep
    the lock discipline: [task_mutex] is never locked while held, every
    push into the queue is under [task_mutex], [Start], [CreateThread]
    and [notify_one] are called with no mutex held, and no mutex is held
    when the calls have returned.  The calls only add to the trace. *)
Theorem Submit_keeps_lock_discipline (calls : list (unit -> @Outcome Exn Val))
  (w : World) :
  trace (Submit_all Start CreateThread calls w).2
    = trace w ++ events_of (Submit_all Start CreateThread calls) w
  /\ lock_discipline [] (events_of (Submit_all Start CreateThread calls) w) = Some [].
Proof.
  destruct (Submit_all_trace calls w) as (evs & Htr & Hd).
  assert (E : events_of (Submit_all Start CreateThread calls) w = evs).
  { unfold events_of. rewrite Htr. apply drop_app_length. }
  rewrite E. done.
Qed.

Lemma Submit_all_heap (calls : list (unit -> @Outcome Exn Val)) (w : World) :
  let r := Submit_all Start CreateThread calls w in
  Forall2 (fun fn f =>
             heap r.2 !! future_state f
             = Some (mkPackagedTask (fun _ => fn tt) Pending)) calls r.1
  /\ NoDup r.1
  /\ (forall f, f ∈ r.1 -> heap w !! future_state f = None)
  /\ (forall t, is_Some (heap w !! t) -> heap r.2 !! t = heap w !! t).
Proof.
  revert w. induction calls as [|fn rest IH]; intros w r; subst r.
  - cbn. split; [constructor|]. split; [constructor|].
    split; [|done]. intros f Hf. by apply elem_of_nil in Hf.
  - rewrite Submit_all_cons. cbn [fst snd].
    specialize (IH (Submit Start CreateThread fn tt w).2).
    cbn zeta in IH. revert IH. rewrite Submit_unfold. cbn [fst snd heap].
    set (t0 := fresh (dom (heap w))).
    set (w1 := mkWorld _ _ _).
    intros (Hall & Hnd & Hnew & Hold).
    assert (Ht0 : heap (Submit_all Start CreateThread rest w1).2 !! t0
                  = Some (mkPackagedTask (fun _ => fn tt) Pending)).
    { rewrite Hold; subst w1; cbn [heap]; rewrite lookup_insert_eq; eauto. }
    split; [constructor; [exact Ht0|exact Hall]|].
    split.
    { constructor; [|exact Hnd]. intros Hin. apply Hnew in Hin.
      subst w1. cbn [heap future_state] in Hin. rewrite lookup_insert_eq in Hin. done. }
    split.
    + intros f Hf. apply elem_of_cons in Hf as [->|Hf].
      * apply fresh_address_unused.
      * apply Hnew in Hf. subst w1. cbn [heap] in Hf.
        apply lookup_insert_None in Hf as [Hf _]. exact Hf.
    + intros t Ht. rewrite Hold.
      * subst w1. cbn [heap]. apply lookup_insert_ne.
        intros <-. unfold t0 in Ht. rewrite fresh_address_unused in Ht.
        by destruct Ht.
      * subst w1. cbn [heap]. rewrite lookup_insert_ne; [done|].
        intros <-. unfold t0 in Ht. rewrite fresh_address_unused in Ht.
        by destruct Ht.
Qed.

(** X6: the futures that successive calls of [Submit] return are pairwise
    distinct and new (no packaged task was at their address before the
    calls); after the calls the packaged task of the i-th future stores
    the i-th callable and is pending, so that every returned future
    still blocks its reader; every packaged task that existed before the
    calls is as it was. *)
Theorem Submit_all_futures (calls : list (unit -> @Outcome Exn Val)) (w : World) :
  let r := Submit_all Start CreateThread calls w in
  Forall2 (fun fn f =>
             heap r.2 !! future_state f
             = Some (mkPackagedTask (fun _ => fn tt) Pending)) calls r.1
  /\ NoDup r.1
  /\ (forall f, f ∈ r.1 -> heap w !! future_state f = None)
  /\ (forall t, is_Some (heap w !! t) -> heap r.2 !! t = heap w !! t)
  /\ (forall f, f ∈ r.1 -> future_get f (heap r.2) = None)
  /\ length r.1 = length calls.
Proof.
  intros r. subst r.
  destruct (Submit_all_heap calls w) as (Hall & Hnd & Hnew & Hold).
  split; [exact Hall|]. split; [exact Hnd|].
  split; [exact Hnew|]. split; [exact Hold|]. split.
  - intros f Hf. apply list_elem_of_lookup in Hf as [i Hi].
    destruct (Forall2_lookup_r _ _ _ i f Hall Hi) as (fn & _ & Hfn).
    unfold future_get. rewrite Hfn. reflexivity.
  - symmetry. eapply Forall2_length. exact Hall.
Qed.

(** X7: when neither [Start] nor [CreateThread] touches the queue, the
    calls of [Submit] push their entries at the back of the queue in the
    order of the calls, and what was queued before stays in front, in
    order. *)
Theorem Submit_all_queue (calls : list (unit -> @Outcome Exn Val)) (w : World) :
  (forall n p, tasks (Start n p).2 = tasks p) ->
  (forall p, tasks (CreateThread p).2 = tasks p) ->
  let r := Submit_all Start CreateThread calls w in
  tasks (pool r.2) = tasks (pool w) ++ (entry_of <$> r.1)
  /\ length r.1 = length calls.
Proof.
  intros HS HC. revert w. induction calls as [|fn rest IH]; intros w r; subst r.
  - cbn. rewrite app_nil_r. done.
  - rewrite Submit_all_cons. cbn [fst snd].
    destruct (IH (Submit Start CreateThread fn tt w).2) as [Hq Hlen].
    rewrite Hq, fmap_cons. cbn [length]. rewrite Hlen. split; [|done].
    rewrite Submit_unfold. unfold entry_of at 2.
    cbn [fst snd pool tasks set_tasks future_state].
    assert (Ht : tasks (scaled_up CreateThread (auto_started Start (pool w)))
                 = tasks (pool w)).
    { unfold scaled_up, auto_started.
      destruct (scale_up_wanted _); rewrite ?HC;
        destruct (Status_eqb (status (pool w)) STOP); rewrite ?HS; done. }
    rewrite Ht, <- app_assoc. reflexivity.
Qed.

End SubmitSequences.

(** ** Running the entries that [Submit] pushed *)

Section RunEntries.

Context {Val Exn : Type}.

Implicit Types (h : gmap nat (@PackagedTask Val Exn)).

Lemma run_all_unfold entry rest h :
  run_all (entry :: rest) h =
    ((run_task entry h).1 :: (run_all rest (run_task entry h).2).1,
     (run_all rest (run_task entry h).2).2).
Proof.
  cbn [run_all]. destruct (run_task entry h) as [o h1]. cbn [fst snd].
  destruct (run_all rest h1) as [os h2]. reflexivity.
Qed.

(** Entries that are distinct and pending all run to a normal return,
    each stores the outcome of its own callable, and nothing else
    changes. *)
Lemma run_all_pending (entries : list Task) h :
  NoDup entries ->
  (forall entry, entry ∈ entries -> pending entry h) ->
  (run_all entries h).1 = replicate (length entries) (Returns tt)
  /\ (forall entry pt, entry ∈ entries ->
        h !! captured_task entry = Some pt ->
        (run_all entries h).2 !! captured_task entry
        = Some (mkPackagedTask (stored_task pt) (outcome_state (stored_task pt tt))))
  /\ (forall t, (forall entry, entry ∈ entries -> captured_task entry ≠ t) ->
        (run_all entries h).2 !! t = h !! t).
Proof.
  revert h. induction entries as [|e es IH]; intros h Hnd Hp.
  - cbn. split; [done|]. split; [|done]. intros e pt He. by apply elem_of_nil in He.
  - apply NoDup_cons in Hnd as [Hnotin Hnd].
    rewrite run_all_unfold. cbn [fst snd length replicate].
    destruct (Hp e) as (pt0 & Hpt0 & Hpend0); [apply elem_of_cons; by left|].
    assert (Hrun : run_task e h
                   = (Returns tt,
                      <[captured_task e :=
                          mkPackagedTask (stored_task pt0)
                            (outcome_state (stored_task pt0 tt))]> h)).
    { unfold run_task, call_packaged_task. rewrite Hpt0, Hpend0. reflexivity. }
    rewrite Hrun. cbn [fst snd].
    set (h1 := <[captured_task e := _]> h).
    assert (Hne : forall e', e' ∈ es -> captured_task e' ≠ captured_task e).
    { intros e' He' Heq. apply captured_task_inj in Heq. subst e'. done. }
    destruct (IH h1 Hnd) as (Hout & Hres & Hframe).
    { intros e' He'. apply pending_insert_ne; [by apply Hne|].
      apply Hp. apply elem_of_cons. by right. }
    split; [rewrite Hout; reflexivity|]. split.
    + intros e' pt He' Hpt. apply elem_of_cons in He' as [->|He'].
      * rewrite Hframe; [|intros e' He' Heq; by apply (Hne e' He')].
        unfold h1. rewrite lookup_insert_eq. congruence.
      * apply Hres; [done|]. unfold h1. rewrite lookup_insert_ne; [done|].
        intros Heq. by apply (Hne e' He').
    + intros t Ht. rewrite Hframe.
      * unfold h1. apply lookup_insert_ne. apply Ht. apply elem_of_cons. by left.
      * intros e' He'. apply Ht. apply elem_of_cons. by right.
Qed.

Lemma future_get_resolved_entry (f : Future) pt h :
  h !! future_state f
    = Some (mkPackagedTask (stored_task pt) (outcome_state (stored_task pt tt))) ->
  future_get f h = Some (stored_task pt tt).
Proof.
  intros Hf. unfold future_get. rewrite Hf. cbn [shared_state].
  destruct (stored_task pt tt); reflexivity.
Qed.

Lemma Forall2_futures_read (calls : list (unit -> @Outcome Exn Val))
  (fs : list Future) h h' :
  Forall2 (fun fn f =>
             h !! future_state f = Some (mkPackagedTask (fun _ => fn tt) Pending))
    calls fs ->
  (forall f pt, f ∈ fs -> h !! future_state f = Some pt ->
     h' !! future_state f
     = Some (mkPackagedTask (stored_task pt) (outcome_state (stored_task pt tt)))) ->
  Forall2 (fun fn f => future_get f h' = Some (fn tt)) calls fs.
Proof.
  induction 1 as [|fn f calls fs Hf Hall IH]; intros Hres; constructor.
  - apply (future_get_resolved_entry f (mkPackagedTask (fun _ => fn tt) Pending)).
    apply Hres; [apply elem_of_cons; by left|exact Hf].
  - apply IH. intros g pt Hg. apply Hres. apply elem_of_cons. by right.
Qed.

(** A run of an entry never changes a packaged task that is not pending. *)
Lemma run_task_keeps_resolved entry t pt h :
  h !! t = Some pt -> shared_state pt ≠ Pending ->
  (run_task entry h).2 !! t = Some pt.
Proof.
  intros Ht Hnp. unfold run_task, call_packaged_task.
  destruct (h !! captured_task entry) as [pt'|] eqn:Hpt'; [|done].
  destruct (shared_state pt') eqn:Hst; [|done..].
  cbn [snd]. rewrite lookup_insert_ne; [done|].
  intros Heq. rewrite Heq, Ht in Hpt'. injection Hpt' as <-. done.
Qed.

Lemma run_all_keeps_resolved (entries : list Task) t pt h :
  h !! t = Some pt -> shared_state pt ≠ Pending ->
  (run_all entries h).2 !! t = Some pt.
Proof.
  revert h. induction entries as [|e es IH]; intros h Ht Hnp; [done|].
  rewrite run_all_unfold. cbn [snd].
  apply IH; [|done]. by apply run_task_keeps_resolved.
Qed.

Variable Start : N -> ThreadPool -> Z * ThreadPool.
Variable CreateThread : ThreadPool -> bool * ThreadPool.

(** X8: after successive calls of [Submit], let the entries of the
    returned futures run once each, in any order.  Every run returns
    normally, whether its callable returns or throws, and every future
    then reads what its own callable did: the i-th future reads the
    outcome of the i-th callable.  The packaged tasks that existed before
    the calls are untouched. *)
Theorem Submit_all_results (calls : list (unit -> @Outcome Exn Val))
  (w : World) (order : list Task) :
  order ≡ₚ entry_of <$> (Submit_all Start CreateThread calls w).1 ->
  let r := Submit_all Start CreateThread calls w in
  let x := run_all order (heap r.2) in
  x.1 = replicate (length calls) (Returns tt)
  /\ Forall2 (fun fn f => future_get f x.2 = Some (fn tt)) calls r.1
  /\ (forall t, is_Some (heap w !! t) -> x.2 !! t = heap w !! t).
Proof.
  intros Hperm r x. subst x r.
  destruct (Submit_all_heap Start CreateThread calls w)
    as (Hall & Hnd & Hnew & Hold).
  set (r := Submit_all Start CreateThread calls w) in *.
  assert (Hnd' : NoDup order).
  { rewrite Hperm. apply NoDup_fmap_2; [|done].
    intros f g Hfg. by apply entry_of_inj. }
  assert (Hin : forall f, f ∈ r.1 -> entry_of f ∈ order).
  { intros f Hf. rewrite Hperm. by apply list_elem_of_fmap_2. }
  assert (Hpend : forall entry, entry ∈ order -> pending entry (heap r.2)).
  { intros e He. rewrite Hperm in He.
    apply list_elem_of_fmap in He as (f & -> & Hf).
    apply list_elem_of_lookup in Hf as [i Hi].
    destruct (Forall2_lookup_r _ _ _ i f Hall Hi) as (fn & _ & Hfn).
    eexists. split; [exact Hfn|done]. }
  destruct (run_all_pending order (heap r.2) Hnd' Hpend) as (Hout & Hres & Hframe).
  split; [|split].
  - rewrite Hout. f_equal. rewrite Hperm, length_fmap.
    symmetry. by eapply Forall2_length.
  - apply (Forall2_futures_read calls r.1 (heap r.2)); [exact Hall|].
    intros f pt Hf Hpt. apply (Hres (entry_of f) pt (Hin f Hf) Hpt).
  - intros t Ht. rewrite Hframe; [by apply Hold|].
    intros e He Heq. rewrite Hperm in He.
    apply list_elem_of_fmap in He as (f & -> & Hf).
    apply Hnew in Hf. cbn [entry_of captured_task] in Heq.
    rewrite Heq in Hf. rewrite Hf in Ht. by destruct Ht.
Qed.

(** X9: a future that has been resolved keeps its outcome: no run of any
    entries, and no further call of [Submit], changes what it reads.  In
    particular an entry that is run a second time cannot overwrite the
    outcome. *)
Theorem resolved_future_is_stable (f : Future) (o : @Outcome Exn Val)
  (entries : list Task) (calls : list (unit -> @Outcome Exn Val)) (w : World) :
  future_get f (heap w) = Some o ->
  future_get f (run_all entries (heap w)).2 = Some o
  /\ future_get f (heap (Submit_all Start CreateThread calls w).2) = Some o
  /\ future_get f
       (run_all entries (heap (Submit_all Start CreateThread calls w).2)).2
     = Some o.
Proof.
  intros Hget.
  assert (Hres : exists pt, heap w !! future_state f = Some pt
                            /\ shared_state pt ≠ Pending).
  { unfold future_get in Hget.
    destruct (heap w !! future_state f) as [pt|]; [|done].
    exists pt. split; [done|]. destruct (shared_state pt); done. }
  destruct Hres as (pt & Hpt & Hnp).
  assert (Hsub : heap (Submit_all Start CreateThread calls w).2 !! future_state f
                 = Some pt).
  { destruct (Submit_all_heap Start CreateThread calls w) as (_ & _ & _ & Hold).
    rewrite Hold; [done|]. rewrite Hpt. eauto. }
  assert (Hsame : forall h, h !! future_state f = Some pt -> future_get f h = Some o).
  { intros h Hh. unfold future_get in *. rewrite Hh. rewrite Hpt in Hget. done. }
  split; [|split].
  - apply Hsame. by apply run_all_keeps_resolved.
  - by apply Hsame.
  - apply Hsame. by apply run_all_keeps_resolved.
Qed.

End RunEntries.

(** ** Bursts of submissions and the mutators together *)

Section Bursts.

Context {Val Exn : Type}.
Variable Start : N -> ThreadPool -> Z * ThreadPool.
Variable CreateThread : ThreadPool -> bool * ThreadPool.






End Bursts.

(** X11: the three mutators are independent of one another.  Calls on
    different parameters commute, a second call on the same parameter
    replaces the first, and storing the value a parameter already has
    changes nothing. *)
Theorem mutators_compose (a b : N) (ms ms' : Z) (p : ThreadPool) :
  ((SetMaxThreadNum a (SetMinThreadNum b p).2).2
     = (SetMinThreadNum b (SetMaxThreadNum a p).2).2
   /\ (SetMaxIdleTime ms (SetMinThreadNum b p).2).2
      = (SetMinThreadNum b (SetMaxIdleTime ms p).2).2
   /\ (SetMaxIdleTime ms (SetMaxThreadNum a p).2).2
      = (SetMaxThreadNum a (SetMaxIdleTime ms p).2).2)
  /\ ((SetMaxThreadNum a (SetMaxThreadNum b p).2).2 = (SetMaxThreadNum a p).2
      /\ (SetMinThreadNum a (SetMinThreadNum b p).2).2 = (SetMinThreadNum a p).2
      /\ (SetMaxIdleTime ms (SetMaxIdleTime ms' p).2).2 = (SetMaxIdleTime ms p).2)
  /\ ((SetMaxThreadNum (max_thread_num p) p).2 = p
      /\ (SetMinThreadNum (min_thread_num p) p).2 = p
      /\ (SetMaxIdleTime (max_idle_time p) p).2 = p).
Proof. destruct p. repeat split. Qed.

(** ** The further properties at sample inputs *)

(** A default pool, and a [Start] and a [CreateThread] that report the
    opposite of what they did. *)
Lemma Submit_drops_results_witness :
  let w := mkWorld (ThreadPool_default 4) (∅ : gmap nat (@PackagedTask Z nat)) [] in
  Submit (Start_spec 2 0) (CreateThread_spec true 0) sample_fn1 tt w
  = Submit (fun n p => (7%Z, (Start_spec 2 0 n p).2))
      (fun p => (false, (CreateThread_spec true 0 p).2)) sample_fn1 tt w.
Proof.
  intros w.
  apply (Submit_drops_results (Start_spec 2 0)
           (fun n p => (7%Z, (Start_spec 2 0 n p).2))
           (CreateThread_spec true 0)
           (fun p => (false, (CreateThread_spec true 0 p).2)) sample_fn1 tt w).
  - intros n p. reflexivity.
  - intros p. reflexivity.
Defined.

Lemma Submit_keeps_status_witness :
  let w := mkWorld (mkThreadPool 1 4 250 PAUSE 1 0 [mkThreadData 1 RUNNING 0 0] [])
             (∅ : gmap nat (@PackagedTask Z nat)) [] in
  let r := Submit (Start_spec 2 0) (CreateThread_spec true 0) sample_fn1 tt w in
  status (pool w) ≠ STOP
  /\ status (pool r.2) = PAUSE
  /\ cur_thread_num (pool r.2) = 2
  /\ tasks (pool r.2) = [mkTask 0].
Proof.
  intros w r.
  assert (Hst : status (pool w) ≠ STOP) by discriminate.
  destruct (Submit_keeps_status (Start_spec 2 0) (CreateThread_spec true 0)
              sample_fn1 tt w Hst
              (fun p => proj2 (CreateThread_spec_frame true 0 p)))
    as (Hs & _).
  split; [exact Hst|]. split; [exact Hs|].
  split; vm_compute; reflexivity.
Defined.


Lemma Submit_ignores_min_and_idle_time_witness :
  let w := mkWorld (mkThreadPool 1 4 250 RUNNING 1 0 [mkThreadData 1 RUNNING 0 0] [])
             (∅ : gmap nat (@PackagedTask Z nat)) [] in
  status (pool w) ≠ STOP
  /\ events_of (Submit (Start_spec 2 0) (CreateThread_spec true 0) sample_fn1 tt)
       (with_pool_of (SetMinThreadNum 9 (pool w)).2 w)
     = events_of (Submit (Start_spec 2 0) (CreateThread_spec true 0) sample_fn1 tt) w.
Proof.
  intros w.
  assert (Hst : status (pool w) ≠ STOP) by discriminate.
  destruct (Submit_ignores_min_and_idle_time (Start_spec 2 0)
              (CreateThread_spec true 0) sample_fn1 tt 9 0%Z w Hst)
    as ((He & _) & _).
  split; [exact Hst|exact He].
Defined.

Lemma Submit_all_queue_witness :
  let r := Submit_all (Start_spec 2 0) (CreateThread_spec true 0)
             [sample_fn1; sample_fn2] (world sample0) in
  r.1 = [mkFuture 0; mkFuture 1]
  /\ tasks (pool r.2) = tasks (pool (world sample0)) ++ (entry_of <$> r.1).
Proof.
  intros r.
  destruct (Submit_all_queue (Start_spec 2 0) (CreateThread_spec true 0)
              [sample_fn1; sample_fn2] (world sample0)
              (fun n p => Start_spec_tasks 2 0 n p)
              (fun p => proj1 (CreateThread_spec_frame true 0 p)))
    as (Hq & _).
  split; [vm_compute; reflexivity|exact Hq].
Defined.

Lemma sample_futures :
  (Submit_all (Start_spec 2 0) (CreateThread_spec true 0)
     [sample_fn1; sample_fn2] (world sample0)).1 = [mkFuture 0; mkFuture 1].
Proof. vm_compute. reflexivity. Defined.

(** The second entry runs before the first. *)
Lemma Submit_all_results_witness :
  let r := Submit_all (Start_spec 2 0) (CreateThread_spec true 0)
             [sample_fn1; sample_fn2] (world sample0) in
  let x := run_all [mkTask 1; mkTask 0] (heap r.2) in
  [mkTask 1; mkTask 0] ≡ₚ entry_of <$> r.1
  /\ x.1 = [Returns tt; Returns tt]
  /\ Forall2 (fun fn f => future_get f x.2 = Some (fn tt))
       [sample_fn1; sample_fn2] r.1.
Proof.
  intros r x.
  assert (Hperm : [mkTask 1; mkTask 0] ≡ₚ entry_of <$> r.1).
  { subst r. rewrite sample_futures. apply Permutation_swap. }
  destruct (Submit_all_results (Start_spec 2 0) (CreateThread_spec true 0)
              [sample_fn1; sample_fn2] (world sample0) [mkTask 1; mkTask 0] Hperm)
    as (Hout & Hread & _).
  split; [exact Hperm|]. split; [exact Hout|exact Hread].
Defined.

(** The first future of the sample run, resolved in [sample4], read after
    its entry is run again, after the second entry is run, and after a
    further [Submit]. *)
Lemma resolved_future_is_stable_witness :
  future_get (mkFuture 0) (heap (world sample4)) = Some (Returns 7%Z)
  /\ future_get (mkFuture 0)
       (run_all [mkTask 0; mkTask 1] (heap (world sample4))).2
     = Some (Returns 7%Z)
  /\ future_get (mkFuture 0)
       (heap (Submit_all (Start_spec 0 1) (CreateThread_spec false 1)
                [sample_fn2] (world sample4)).2)
     = Some (Returns 7%Z).
Proof.
  assert (Hget : future_get (mkFuture 0) (heap (world sample4)) = Some (Returns 7%Z)).
  { vm_compute. reflexivity. }
  destruct (resolved_future_is_stable (Start_spec 0 1) (CreateThread_spec false 1)
              (mkFuture 0) (Returns 7%Z) [mkTask 0; mkTask 1] [sample_fn2]
              (world sample4) Hget) as (H1 & H2 & _).
  split; [exact Hget|]. split; [exact H1|exact H2].
Defined.


